(** * The scheduled differential query engine of osquery, and two tables

    A shallow embedding of [src/osquery/dispatcher/scheduler.cpp]
    ([monitor], [launchQuery], [SchedulerRunner::start], [startScheduler])
    and of [src/osquery/tables/applications/darwin/browser_plugins.cpp]
    ([genBrowserPlugin], [genBrowserPlugins], [genSafariExtension],
    [genSafariExtensions]), together with the collaborators they call.

    In the scheduler, state is threaded explicitly through a small state
    monad over a [World]; the answers of the host (query engine, clock,
    process table, logger, configuration) are section variables indexed by
    a logical instant, so that two calls may answer differently.  The
    tables read the file system through a record of answers. *)

From Stdlib Require Import ZArith Lia.
From stdpp Require Import gmap strings list fin_maps.

Set Default Proof Using "Type".
Local Open Scope Z_scope.

(** ** Data model *)

(** [Row] is a [std::map<std::string, std::string>] from column name to
    value; [QueryData] is a [std::vector<Row>]. *)
Abbreviation Row := (gmap string string).
Abbreviation QueryData := (list Row).

(** [osquery::Status]: a code (0 is success) and a message. *)
Record Status := mkStatus { code : Z; what : string }.

Definition ok (s : Status) : bool := code s =? 0.

(** The [SQL] object returned by the query engine: a status and rows. *)
Record SQL := mkSQL { sql_status : Status; rows : QueryData }.

Definition sql_ok (s : SQL) : bool := ok (sql_status s).
Definition getMessageString (s : SQL) : string := what (sql_status s).

(** [ScheduledQuery]: the type of [splayed_interval] is declared outside
    the sources at hand; it is kept as an integer and converted to
    [unsigned long] where the loop uses it. *)
Record ScheduledQuery := mkScheduledQuery {
  query : string;
  interval : Z;
  splayed_interval : Z;
  options : gmap string bool
}.

(** The schedule is a [std::map<std::string, ScheduledQuery>]; the loop
    only iterates over it, so it is kept as the sequence of its entries in
    iteration order. *)
Abbreviation Schedule := (list (string * ScheduledQuery)).

Record DiffResults := mkDiffResults { added : QueryData; removed : QueryData }.

Record QueryLogItem := mkQueryLogItem {
  results : DiffResults;
  snapshot_results : QueryData;
  name : string;
  identifier : string;
  time : Z;
  calendar_time : string
}.

(** What [Config::recordQueryPerformance] receives. *)
Record PerformanceSample := mkPerformanceSample {
  perf_name : string;
  perf_delay : Z;
  perf_size : Z;
  perf_r0 : Row;
  perf_r1 : Row
}.

(** ** Machine integers *)

Definition ULONG_MOD : Z := 2 ^ 64.

(** Conversion to [unsigned long] / [size_t]. *)
Definition to_ulong (z : Z) : Z := z mod ULONG_MOD.

(** ** The key-value backend and the differential store *)

Inductive Access := Get (key : string) | Put (key : string).

(** Modelled from the spec: the key-value backend behind the differential
    store ([get(key) -> (bytes, found)], [put(key, bytes) -> error]); its
    code is not among the sources.  Values are the row sets themselves
    (the serialisation is opaque), [rejecting] holds the keys whose [put]
    fails, and [trace] records every access. *)
Record Backend := mkBackend {
  kv : gmap string QueryData;
  rejecting : gset string;
  trace : list Access
}.

(** Modelled from the spec: [get] of the key-value backend. *)
Definition backend_get (key : string) (b : Backend) : option QueryData * Backend :=
  (kv b !! key, mkBackend (kv b) (rejecting b) (trace b ++ [Get key])).

(** Modelled from the spec: [put] of the key-value backend; all or
    nothing, a rejected write leaves the stored value as it was. *)
Definition backend_put (key : string) (v : QueryData) (b : Backend) : Status * Backend :=
  if decide (key ∈ rejecting b)
  then (mkStatus 1 "write failed", mkBackend (kv b) (rejecting b) (trace b ++ [Put key]))
  else (mkStatus 0 "OK", mkBackend (<[key := v]> (kv b)) (rejecting b) (trace b ++ [Put key])).

(** Modelled from the spec: the result differ, [added = new - old] and
    [removed = old - new] by full-row equality. *)
Definition diff (old_ new_ : QueryData) : DiffResults :=
  mkDiffResults (list_difference new_ old_) (list_difference old_ new_).

(** Modelled from the spec: [Query::addNewResults] (the differential
    store's [addResults]), whose code is not among the sources.  It loads
    the baseline (absent: empty), computes the difference, and persists the
    new rows whatever the difference is. *)
Definition addNewResults (qname : string) (new_ : QueryData) (b : Backend)
  : Status * DiffResults * Backend :=
  let '(stored, b1) := backend_get qname b in
  let baseline := default [] stored in
  let d := diff baseline new_ in
  let '(st, b2) := backend_put qname new_ b1 in
  (st, d, b2).

(** The baseline the store compares against: what the backend holds for the
    query, the empty row set when it holds nothing. *)
Definition baseline_of (qname : string) (b : Backend) : QueryData :=
  default [] (kv b !! qname).

(** ** The world the scheduler acts on *)

Inductive LogLine := LOG_ERROR (msg : string) | VLOG1 (msg : string).

Inductive Emitted :=
| SnapshotItem (item : QueryLogItem)
| DifferentialItem (item : QueryLogItem).

Record World := mkWorld {
  instant : nat;                                (* logical time of the next observation *)
  backend : Backend;                            (* the differential store's backend *)
  sink : list Emitted;                          (* items sent to the logging sink *)
  perf : list PerformanceSample;                (* samples handed to the configuration *)
  log : list LogLine;                           (* LOG(ERROR) and VLOG(1) lines *)
  launched : list (string * ScheduledQuery)     (* calls of launchQuery, in order *)
}.

(** A state monad over the world. *)
Definition M (A : Type) : Type := World → A * World.

#[global] Instance M_ret : MRet M := λ A a w, (a, w).
#[global] Instance M_bind : MBind M := λ A B f m w, let '(a, w') := m w in f a w'.

Definition observe : M nat :=
  λ w, (instant w,
        mkWorld (S (instant w)) (backend w) (sink w) (perf w) (log w) (launched w)).

Definition write_log (l : LogLine) : M unit :=
  λ w, (tt, mkWorld (instant w) (backend w) (sink w) (perf w) (log w ++ [l]) (launched w)).

Definition send (e : Emitted) : M unit :=
  λ w, (tt, mkWorld (instant w) (backend w) (sink w ++ [e]) (perf w) (log w) (launched w)).

Definition record_perf (p : PerformanceSample) : M unit :=
  λ w, (tt, mkWorld (instant w) (backend w) (sink w) (perf w ++ [p]) (log w) (launched w)).

Definition enter_launch (n : string) (q : ScheduledQuery) : M unit :=
  λ w, (tt, mkWorld (instant w) (backend w) (sink w) (perf w) (log w) (launched w ++ [(n, q)])).

Definition with_backend {A} (f : Backend → A * Backend) : M A :=
  λ w, let '(a, b) := f (backend w) in
       (a, mkWorld (instant w) b (sink w) (perf w) (log w) (launched w)).

(** ** The size the monitor reports *)

(** [size += s.size()] on a [size_t]. *)
Definition add_size (size : Z) (s : string) : Z :=
  to_ulong (size + Z.of_nat (String.length s)).

(** The inner loop of [monitor]: every column of one row. *)
Definition row_size (row : Row) (size : Z) : Z :=
  map_fold (λ first second size, add_size (add_size size first) second) size row.

(** The outer loop of [monitor]: every row, starting from [size = 0]. *)
Definition output_size (rs : QueryData) : Z :=
  fold_left (λ size row, row_size row size) rs 0.

(** The sum the specification speaks of: the character lengths of every
    column name and every value of every row. *)
Definition row_chars (row : Row) : Z :=
  foldr (λ kv acc, Z.of_nat (String.length kv.1) + Z.of_nat (String.length kv.2) + acc)
        0 (map_to_list row).

Definition total_chars (rs : QueryData) : Z :=
  foldr (λ row acc, row_chars row + acc) 0 rs.

(** ** Option lookups *)

(** [options.count(k) && options.at(k)]. *)
Definition option_set (k : string) (opts : gmap string bool) : bool :=
  match opts !! k with
  | Some b => b
  | None => false
  end.

(** [options.count(k) && !options.at(k)]. *)
Definition option_cleared (k : string) (opts : gmap string bool) : bool :=
  match opts !! k with
  | Some b => negb b
  | None => false
  end.

(** ** Schedules *)

(** A snapshot the loop can schedule: every splayed interval is positive
    and fits the machine integer it is read into. *)
Definition schedule_ok (sched : Schedule) : Prop :=
  Forall (λ e, 0 < splayed_interval e.2 < ULONG_MOD) sched.

(** The due-check of the specification, [i mod splayedInterval == 0]. *)
Definition due (i : Z) (e : string * ScheduledQuery) : bool :=
  i mod splayed_interval e.2 =? 0.

(** Modelled from the spec: building the schedule snapshot, whose code
    (the configuration collaborator) is not among the sources.  A query
    whose splayed interval is not positive is rejected when the snapshot
    is built: the snapshot holds the accepted queries, and the names of
    the rejected ones are reported as configuration errors. *)
Definition build_schedule (entries : Schedule) : Schedule * list string :=
  (filter (λ e, 0 < splayed_interval e.2) entries,
   (filter (λ e, ¬ 0 < splayed_interval e.2) entries).*1).

Inductive ConstraintOperator := EQUALS.

(** How [SchedulerRunner::start] ends, or that the model ran out of fuel
    while the loop was still running. *)
Inductive Outcome :=
| TimedOut       (* the loop condition became false *)
| Interrupted    (* the interruptible sleep was cancelled *)
| Faulted        (* a modulus by zero *)
| StillRunning.  (* fuel exhausted, the loop goes on *)

(** ** The browser plugin tables

    [src/osquery/tables/applications/darwin/browser_plugins.cpp].  The
    file system, the property-list parser and libarchive are read through
    a [Filesystem] of answers, taken to stay the same while one table is
    generated. *)

(** A [boost::property_tree::ptree] as these tables read it: the children
    of the root, in order, each with its key and its data.
    [tree.get(key, fallback)] is the data of the first child with that key,
    the fallback when there is none (no key used here holds a path
    separator). *)
Abbreviation ptree := (list (string * string)).

Fixpoint ptree_get (key fallback : string) (tree : ptree) : string :=
  match tree with
  | [] => fallback
  | (k, data) :: rest => if (k =? key)%string then data else ptree_get key fallback rest
  end.

(** An entry of an archive: what [archive_entry_pathname] answers (it may
    be null) and the buffer after [archive_read_data_into_buffer]. *)
Record archive_entry := mkArchiveEntry {
  archive_entry_pathname : option string;
  archive_entry_content : string
}.

Record Filesystem := mkFilesystem {
  parsePlist : string → Status * ptree;
  parsePlistContent : string → Status * ptree;
  (* the vector passed in, the vector left *)
  listDirectoriesInDirectory : string → list string → Status * list string;
  resolveFilePattern : string → list string → Status * list string;
  getHomeDirectories : list string;
  pathExists : string → Status;
  (* [home / part] on [boost::filesystem::path] *)
  path_append : string → string → string;
  (* whether [archive_read_new] gives an archive, for the file to read *)
  archive_read_new : string → bool;
  (* the entries [archive_read_next_header] yields with [ARCHIVE_OK];
     [None] when the file cannot be opened *)
  archive_read_open_file : string → option (list archive_entry)
}.

Definition kBrowserPluginsPath : string := "/Library/Internet Plug-Ins/".

(** The two [std::map]s from property-list key to column, as the sequence
    of their entries in iteration order (sorted by key). *)
Definition kBrowserPluginKeys : list (string * string) :=
  [("CFBundleDevelopmentRegion", "development_region");
   ("CFBundleIdentifier", "identifier");
   ("CFBundleShortVersionString", "version");
   ("DTPlatformBuild", "sdk");
   ("LSRequiresNativeExecution", "native");
   ("WebPluginDescription", "description");
   ("WebPluginName", "name")].

Definition kSafariExtensionKeys : list (string * string) :=
  [("Author", "author");
   ("CFBundleDisplayName", "name");
   ("CFBundleIdentifier", "identifier");
   ("CFBundleInfoDictionaryVersion", "sdk");
   ("CFBundleShortVersionString", "version");
   ("Description", "description");
   ("Update Manifest URL", "update_url")].

(** [r.count(k)], and [r.at(k)] where the column is there (it throws
    otherwise; every use below follows an assignment or a [count]). *)
Definition row_count (k : string) (r : Row) : nat :=
  match r !! k with
  | Some _ => 1
  | None => 0
  end.

Definition row_at (k : string) (r : Row) : string := default "" (r !! k).

(** The body of the loop over [kBrowserPluginKeys]. *)
Definition genBrowserPlugin_key (tree : ptree) (r : Row) (it : string * string) : Row :=
  let r := <[it.2 := ptree_get it.1 "" tree]> r in
  if (row_at it.2 r =? "true")%string || (row_at it.2 r =? "YES")%string
     || (row_at it.2 r =? "Yes")%string
  then <[it.2 := "1"]> r
  else if (row_at it.2 r =? "false")%string || (row_at it.2 r =? "NO")%string
          || (row_at it.2 r =? "No")%string
  then <[it.2 := "0"]> r
  else r.

Definition genBrowserPlugin (fs : Filesystem) (path : string) (results : QueryData)
  : QueryData :=
  let r : Row := ∅ in
  let '(status, tree) := parsePlist fs (path +:+ "/Contents/Info.plist") in
  let r := if ok status then foldl (genBrowserPlugin_key tree) r kBrowserPluginKeys
           else r in
  let r := if (row_count "native" r =? 0)%nat
              || (String.length (row_at "native" r) =? 0)%nat
           then <["native" := "0"]> r else r in
  let r := <["path" := path]> r in
  results ++ [r].

Definition genBrowserPlugins {QueryContext : Type} (fs : Filesystem)
           (context : QueryContext) : QueryData :=
  let results : QueryData := [] in
  let bundles : list string := [] in
  let '(status, bundles) := listDirectoriesInDirectory fs kBrowserPluginsPath bundles in
  let results :=
    if ok status then foldl (λ results dir, genBrowserPlugin fs dir results) results bundles
    else results in
  let homes := getHomeDirectories fs in
  (foldl (λ '(results, bundles) home,
            let bundles : list string := [] in
            let '(status, bundles) :=
              listDirectoriesInDirectory fs (path_append fs home kBrowserPluginsPath)
                                         bundles in
            (if ok status
             then foldl (λ results dir, genBrowserPlugin fs dir results) results bundles
             else results, bundles))
         (results, bundles) homes).1.

(** [std::string(hay).find(needle) != std::string::npos]. *)
Fixpoint contains (needle hay : string) : bool :=
  if String.prefix needle hay then true
  else match hay with
       | EmptyString => false
       | String _ rest => contains needle rest
       end.

(** The [while] loop of [genSafariExtension] over the headers of the
    archive: entries without a name or without ["Info.plist"] in it are
    skipped, the first other one is read and ends the loop. *)
Fixpoint genSafariExtension_headers (fs : Filesystem) (entries : list archive_entry)
         (r : Row) : Row :=
  match entries with
  | [] => r
  | entry :: rest =>
      match archive_entry_pathname entry with
      | None => genSafariExtension_headers fs rest r
      | Some item_path =>
          if negb (contains "Info.plist" item_path)
          then genSafariExtension_headers fs rest r
          else
            let content := archive_entry_content entry in
            let '(status, tree) := parsePlistContent fs content in
            if ok status
            then foldl (λ r it, <[it.2 := ptree_get it.1 "" tree]> r) r kSafariExtensionKeys
            else r
      end
  end.

Definition genSafariExtension (fs : Filesystem) (path : string) (results : QueryData)
  : QueryData :=
  let r : Row := <["path" := path]> ∅ in
  if negb (archive_read_new fs path) then results
  else
    match archive_read_open_file fs path with
    | None => results
    | Some entries => results ++ [genSafariExtension_headers fs entries r]
    end.


(** An entry the loop passes over: no name, or a name without
    ["Info.plist"] in it. *)
Definition skipped_entry (entry : archive_entry) : Prop :=
  match archive_entry_pathname entry with
  | None => True
  | Some item_path => contains "Info.plist" item_path = false
  end.

(** The conversion of property-list booleans the plugin table applies to
    each value: the true spellings become ["1"], the false ones ["0"]. *)
Definition plist_bool (v : string) : string :=
  if decide (v ∈ ["true"; "YES"; "Yes"]) then "1"
  else if decide (v ∈ ["false"; "NO"; "No"]) then "0"
  else v.

(** ** The dispatcher

    The scheduler only calls the dispatcher; what is kept of it is the
    sequence of these calls. *)
Record SchedulerRunner := mkSchedulerRunner { runner_timeout : Z; runner_interval : Z }.

Inductive DispatcherCall :=
| AddService (service : SchedulerRunner)
| JoinServices.

Abbreviation Dispatcher := (list DispatcherCall).

(** [Dispatcher::addService], answering with the status [answer]. *)
Definition addService (r : SchedulerRunner) (answer : Status) (d : Dispatcher)
  : Status * Dispatcher :=
  (answer, d ++ [AddService r]).

(** [Dispatcher::joinServices]. *)
Definition joinServices (d : Dispatcher) : Dispatcher := d ++ [JoinServices].

(** ** What a run leaves in place *)

(** What has been sent, logged, launched and sampled in [w] is still
    there, at the front, in [w']. *)
Definition extends (w w' : World) : Prop :=
  sink w `prefix_of` sink w'
  ∧ log w `prefix_of` log w'
  ∧ launched w `prefix_of` launched w'
  ∧ perf w `prefix_of` perf w'.

(** ** A sample host

    Concrete rows, queries and collaborator answers on which the
    properties below are exercised. *)
Module Sample.

Definition rowA : Row := {[ "name" := "alpha" ]}.
Definition rowB : Row := {[ "name" := "beta"; "uid" := "0" ]}.
Definition proc : Row := {[ "pid" := "4242" ]}.

(** The query engine: ["select ab"] yields two rows, ["bad"] fails, any
    other text yields the single row [rowA]. *)
Definition engine (n : nat) (text : string) : SQL :=
  if String.eqb text "bad" then mkSQL (mkStatus 1 "syntax error") []
  else if String.eqb text "select ab" then mkSQL (mkStatus 0 "OK") [rowA; rowB]
  else mkSQL (mkStatus 0 "OK") [rowA].

Definition processes (n : nat) (table column : string) (op : ConstraintOperator)
           (value : string) : QueryData := [proc].
Definition clock (n : nat) : Z := 1700000040 + Z.of_nat n.
Definition seconds_of_minute (t : Z) : Z := t mod 60.
Definition pid_string (pid : Z) : string := "4242".
Definition host (n : nat) : string := "host-1".
Definition ascii (n : nat) : string := "Mon Jan  1 00:00:00 2024".
Definition accept (n : nat) (item : QueryLogItem) : Status := mkStatus 0 "OK".
Definition never (n : nat) (ms : Z) : bool := false.

Definition q_diff : ScheduledQuery := mkScheduledQuery "select a" 10 10 ∅.
Definition q_snapshot : ScheduledQuery :=
  mkScheduledQuery "select a" 60 60 {[ "snapshot" := true ]}.
Definition q_quiet : ScheduledQuery :=
  mkScheduledQuery "select a" 10 10 {[ "removed" := false ]}.
Definition q_bad : ScheduledQuery := mkScheduledQuery "bad" 5 5 ∅.
Definition q_zero : ScheduledQuery := mkScheduledQuery "select a" 0 0 ∅.

Definition schedule : Schedule := [("bad", q_bad); ("diff", q_diff); ("snap", q_snapshot)].
Definition config (n : nat) : Schedule := schedule.

(** A backend holding a baseline of two rows for every sample query. *)
Definition store : Backend :=
  mkBackend {[ "diff" := [rowA; rowB]; "quiet" := [rowA; rowB]; "same" := [rowA] ]} ∅ [].

Definition fresh : World := mkWorld 0 (mkBackend ∅ ∅ []) [] [] [] [].
Definition world : World := mkWorld 0 store [] [] [] [].

End Sample.

(** ** Sample faults

    A logger that refuses every item, a backend that refuses the writes of
    one query, a sleep that is always cancelled, and a second query that
    differs from [Sample.q_diff] in all but its text and its two options. *)
Module SampleFaults.

Definition refuse (n : nat) (item : QueryLogItem) : Status := mkStatus 1 "logger down".
Definition always (n : nat) (ms : Z) : bool := true.
Definition fixed_time (n : nat) : Z := 1700000040.

Definition locked_store : Backend :=
  mkBackend {[ "diff" := [Sample.rowA; Sample.rowB] ]} {[ "diff" ]} [].
Definition locked_world : World := mkWorld 0 locked_store [] [] [] [].

Definition q_other : ScheduledQuery :=
  mkScheduledQuery "select a" 3600 7
                   {[ "snapshot" := false; "removed" := true; "verbose" := true ]}.

End SampleFaults.

(** ** A sample file system

    One system plugin with a property list, one user plugin without, and
    one Safari extension archive with two property lists in it. *)
Module SampleDarwin.

Definition flash : string := "/Library/Internet Plug-Ins/Flash.plugin".
Definition broken : string := "/Users/ann/Library/Internet Plug-Ins/Broken.plugin".
Definition adblock : string := "/Users/ann/Library/Safari/Extensions/AdBlock.safariextz".

Definition flash_plist : ptree :=
  [("WebPluginName", "Flash"); ("CFBundleIdentifier", "com.adobe.flash");
   ("LSRequiresNativeExecution", "YES"); ("WebPluginName", "Shadowed")].

Definition adblock_plist : ptree :=
  [("CFBundleDisplayName", "AdBlock"); ("Author", "ann"); ("Update Manifest URL", "true")].

Definition adblock_entries : list archive_entry :=
  [mkArchiveEntry None "";
   mkArchiveEntry (Some "AdBlock.safariextension/icon.png") "png";
   mkArchiveEntry (Some "AdBlock.safariextension/Info.plist") "first";
   mkArchiveEntry (Some "AdBlock.safariextension/old/Info.plist") "second"].

Definition fs : Filesystem := {|
  parsePlist path :=
    if (path =? flash +:+ "/Contents/Info.plist")%string
    then (mkStatus 0 "OK", flash_plist) else (mkStatus 1 "no property list", []);
  parsePlistContent content :=
    if (content =? "first")%string
    then (mkStatus 0 "OK", adblock_plist) else (mkStatus 1 "not a property list", []);
  listDirectoriesInDirectory dir bundles :=
    if (dir =? kBrowserPluginsPath)%string then (mkStatus 0 "OK", bundles ++ [flash])
    else if (dir =? "/Users/ann/Library/Internet Plug-Ins/")%string
    then (mkStatus 0 "OK", bundles ++ [broken])
    else (mkStatus 1 "no such directory", bundles);
  resolveFilePattern pattern paths :=
    if (pattern =? "/Users/ann/Library/Safari/Extensions/%.safariextz")%string
    then (mkStatus 0 "OK", paths ++ [adblock])
    else (mkStatus 1 "no match", paths);
  getHomeDirectories := ["/Users/ann"; "/Users/bob"];
  pathExists dir :=
    if (dir =? "/Users/ann/Library/Safari/Extensions/")%string
    then mkStatus 0 "OK" else mkStatus 1 "missing";
  path_append a b := a +:+ b;
  archive_read_new path := true;
  archive_read_open_file path :=
    if (path =? adblock)%string then Some adblock_entries else None
|}.

(** The row expected for the plugin with a property list. *)
Definition flash_row : Row :=
  {[ "name" := "Flash"; "identifier" := "com.adobe.flash"; "native" := "1";
     "version" := ""; "sdk" := ""; "description" := "";
     "development_region" := ""; "path" := flash ]}.

End SampleDarwin.

Section Scheduler.

(** *** Flags and collaborators *)

Variable FLAGS_enable_monitor : bool.
Variable getpid : Z.
Variable to_string : Z → string.
(** The query engine, the process table, the clocks, the host identity
    and the logger plugins, each answering at a logical instant. *)
Variable SQLInternal : nat → string → SQL.
Variable selectAllFrom : nat → string → string → ConstraintOperator → string → QueryData.
Variable std_time : nat → Z.
Variable getHostIdentifier : nat → string.
Variable getUnixTime : nat → Z.
Variable getAsciiTime : nat → string.
Variable logSnapshotQuery_status : nat → QueryLogItem → Status.
Variable logQueryLogItem_status : nat → QueryLogItem → Status.
(** The schedule snapshot of a [ConfigDataInstance], the seconds field of
    [std::localtime], and whether a sleep is interrupted. *)
Variable config_schedule : nat → Schedule.
Variable localtime_tm_sec : Z → Z.
Variable sleep_interrupted : nat → Z → bool.
(** The fields of [SchedulerRunner]: an [unsigned long] and a [size_t];
    the theorems that depend on their range state it. *)
Variable timeout_ : Z.
Variable interval_ : Z.

Definition ask {A} (f : nat → A) : M A := n ← observe; mret (f n).

(** *** [monitor] *)

(** The test [r0.size() > 0 && r1.size() > 0] and the reads [r0[0]],
    [r1[0]] it guards are one match on the two samples. *)
Definition monitor (qname : string) (q : ScheduledQuery) : M SQL :=
  let pid := to_string getpid in
  r0 ← ask (λ n, selectAllFrom n "processes" "pid" EQUALS pid);
  t0 ← ask std_time;
  sql ← ask (λ n, SQLInternal n (query q));
  t1 ← ask std_time;
  r1 ← ask (λ n, selectAllFrom n "processes" "pid" EQUALS pid);
  match r0, r1 with
  | r0_0 :: _, r1_0 :: _ =>
      let size := output_size (rows sql) in
      _ ← record_perf (mkPerformanceSample qname (t1 - t0) size r0_0 r1_0);
      mret sql
  | _, _ => mret sql
  end.

(** *** [launchQuery] *)

Definition logSnapshotQuery (item : QueryLogItem) : M Status :=
  _ ← send (SnapshotItem item);
  ask (λ n, logSnapshotQuery_status n item).

Definition logQueryLogItem (item : QueryLogItem) : M Status :=
  _ ← send (DifferentialItem item);
  ask (λ n, logQueryLogItem_status n item).

Definition launchQuery (qname : string) (q : ScheduledQuery) : M unit :=
  _ ← enter_launch qname q;
  _ ← write_log (VLOG1 ("Executing query: " +:+ query q));
  sql ← (if FLAGS_enable_monitor then monitor qname q
         else ask (λ n, SQLInternal n (query q)));
  if negb (sql_ok sql) then
    write_log (LOG_ERROR ("Error executing query (" +:+ query q +:+ "): "
                          +:+ getMessageString sql))
  else
    ident ← ask getHostIdentifier;
    unix ← ask getUnixTime;
    ascii ← ask getAsciiTime;
    if option_set "snapshot" (options q) then
      _ ← logSnapshotQuery
            (mkQueryLogItem (mkDiffResults [] []) (rows sql) qname ident unix ascii);
      mret tt
    else
      '(status, diff_results) ← with_backend (addNewResults qname (rows sql));
      if negb (ok status) then
        write_log (LOG_ERROR ("Error adding new results to database: " +:+ what status))
      else if (length (added diff_results) =? 0)%nat
              && (length (removed diff_results) =? 0)%nat then
        mret tt
      else
        _ ← write_log (VLOG1 ("Found results for query (" +:+ qname
                              +:+ ") for host: " +:+ ident));
        let item_results :=
          if option_cleared "removed" (options q)
          then mkDiffResults (added diff_results) []
          else diff_results in
        status ← logQueryLogItem
                   (mkQueryLogItem item_results [] qname ident unix ascii);
        if negb (ok status) then
          write_log (LOG_ERROR ("Error logging the results of query (" +:+ query q
                                +:+ "): " +:+ what status))
        else mret tt.

(** *** [SchedulerRunner::start] *)

(** The inner loop of one tick over a schedule snapshot.  [i % 0] is
    undefined behaviour; the model stops there with [None]. *)
Fixpoint tick (i : Z) (sched : Schedule) (w : World) : option World :=
  match sched with
  | [] => Some w
  | (qname, q) :: rest =>
      let d := to_ulong (splayed_interval q) in
      if d =? 0 then None
      else if i mod d =? 0 then tick i rest (launchQuery qname q w).2
      else tick i rest w
  end.

(** The world the inner loop has reached when it ends, or when it stops
    at a modulus by zero: the launches before that one have been made. *)
Fixpoint tick_reached (i : Z) (sched : Schedule) (w : World) : World :=
  match sched with
  | [] => w
  | (qname, q) :: rest =>
      let d := to_ulong (splayed_interval q) in
      if d =? 0 then w
      else if i mod d =? 0 then tick_reached i rest (launchQuery qname q w).2
      else tick_reached i rest w
  end.

(** The [for] loop, at most [fuel] iterations of it; [n] counts the
    iterations performed so far.  [interval_ * 1000] is a [size_t]
    product. *)
Fixpoint loop (fuel : nat) (n : nat) (i : Z) (w : World) : Outcome * nat * World :=
  match fuel with
  | O => (StillRunning, n, w)
  | S fuel' =>
      if (timeout_ =? 0) || (i <=? timeout_) then
        let '(snapshot, w1) := ask config_schedule w in
        match tick i snapshot w1 with
        | None => (Faulted, n, tick_reached i snapshot w1)
        | Some w2 =>
            let '(cancelled, w3) :=
              ask (λ k, sleep_interrupted k (to_ulong (interval_ * 1000))) w2 in
            if cancelled : bool then (Interrupted, S n, w3)
            else loop fuel' (S n) (to_ulong (i + 1)) w3
        end
      else (TimedOut, n, w)
  end.

Definition start (fuel : nat) : World → Outcome * nat * World :=
  λ w, let '(t, w1) := ask std_time w in
       let i := to_ulong (localtime_tm_sec t) in
       loop fuel 0 i w1.

(** The execution [launchQuery] binds to [sql]: through the monitor when
    it is enabled, straight from the query engine otherwise. *)
Definition run_query (qname : string) (q : ScheduledQuery) : M SQL :=
  if FLAGS_enable_monitor then monitor qname q
  else ask (λ n, SQLInternal n (query q)).

(** The item [launchQuery] builds from an execution [sql], the store's
    answer and the instant [n0] it starts at: the snapshot item, or the
    differential item with [removed] cleared on request. *)
Definition launch_item (qname : string) (q : ScheduledQuery) (sql : SQL)
           (store : Status * DiffResults * Backend) (n0 : nat) : QueryLogItem :=
  if option_set "snapshot" (options q) then
    mkQueryLogItem (mkDiffResults [] []) (rows sql) qname
                   (getHostIdentifier n0) (getUnixTime (S n0)) (getAsciiTime (S (S n0)))
  else
    mkQueryLogItem (if option_cleared "removed" (options q)
                    then mkDiffResults (added store.1.2) [] else store.1.2)
                   [] qname
                   (getHostIdentifier n0) (getUnixTime (S n0)) (getAsciiTime (S (S n0))).

(** The launches of the entries [ran], one after the other from [w]: what
    executing these queries in turn does. *)
Definition launch_all (w : World) (ran : Schedule) : World :=
  foldl (λ w e, (launchQuery e.1 e.2 w).2) w ran.

(** *** [startScheduler] *)

(** The flag [schedule_timeout], and the status [Dispatcher::addService]
    answers with. *)
Variable FLAGS_schedule_timeout : Z.
Variable Dispatcher_addService_status : Status.

(** [startScheduler(timeout, interval)]: the runner is handed to the
    dispatcher, whose own status is dropped. *)
Definition startScheduler_with (timeout : Z) (interval : Z) (d : Dispatcher)
  : Status * Dispatcher :=
  let '(_, d1) := addService (mkSchedulerRunner timeout interval)
                             Dispatcher_addService_status d in
  (mkStatus 0 "OK", d1).

(** [startScheduler()]. *)
Definition startScheduler (d : Dispatcher) : Status * Dispatcher :=
  let '(st, d1) := startScheduler_with FLAGS_schedule_timeout 1 d in
  if ok st then (mkStatus 0 "OK", joinServices d1)
  else (mkStatus 1 "Could not start scheduler", d1).

(** * Properties *)

(** ** Machine integers *)

Lemma ULONG_MOD_pos : 0 < ULONG_MOD.
Proof. reflexivity. Qed.

Lemma to_ulong_small z : 0 ≤ z < ULONG_MOD → to_ulong z = z.
Proof. intros Hz. unfold to_ulong. by apply Z.mod_small. Qed.

Lemma to_ulong_add_l a b : to_ulong (to_ulong a + b) = to_ulong (a + b).
Proof. unfold to_ulong. apply Zplus_mod_idemp_l. Qed.

(** ** The differential store *)

Lemma addNewResults_diff qname new_ b :
  (addNewResults qname new_ b).1.2 = diff (baseline_of qname b) new_.
Proof. unfold addNewResults, backend_get, backend_put. simpl. by case_decide. Qed.

Lemma addNewResults_trace qname new_ b :
  trace (addNewResults qname new_ b).2 = trace b ++ [Get qname; Put qname].
Proof.
  unfold addNewResults, backend_get, backend_put. simpl.
  case_decide; simpl; by rewrite <- app_assoc.
Qed.

Lemma addNewResults_accepted qname new_ b :
  qname ∉ rejecting b →
  ok (addNewResults qname new_ b).1.1 = true
  ∧ kv (addNewResults qname new_ b).2 = <[qname := new_]> (kv b).
Proof.
  intros Hacc. unfold addNewResults, backend_get, backend_put. simpl.
  by case_decide.
Qed.

Lemma addNewResults_ok_kv qname new_ b :
  ok (addNewResults qname new_ b).1.1 = true →
  kv (addNewResults qname new_ b).2 !! qname = Some new_.
Proof.
  unfold addNewResults, backend_get, backend_put. simpl.
  case_decide; simpl; [discriminate|]. intros _. apply lookup_insert_eq.
Qed.

(** C1: for every query name, new row set and backend that accepts the
    write, [addNewResults] returns [added = new - baseline] and
    [removed = baseline - new] by full-row equality (an absent baseline
    counting as empty), the two are disjoint, and the new rows are stored
    as the baseline whatever the difference is. *)
Theorem addNewResults_diff_and_persist (qname : string) (new_ : QueryData) (b : Backend) :
  qname ∉ rejecting b →
  let '(st, d, b') := addNewResults qname new_ b in
  ok st = true
  ∧ (∀ r, r ∈ added d ↔ r ∈ new_ ∧ r ∉ baseline_of qname b)
  ∧ (∀ r, r ∈ removed d ↔ r ∈ baseline_of qname b ∧ r ∉ new_)
  ∧ (∀ r, ¬ (r ∈ added d ∧ r ∈ removed d))
  ∧ kv b' !! qname = Some new_
  ∧ trace b' = trace b ++ [Get qname; Put qname].
Proof.
  intros Hacc.
  pose proof (addNewResults_diff qname new_ b) as Hd.
  pose proof (addNewResults_trace qname new_ b) as Ht.
  destruct (addNewResults_accepted qname new_ b Hacc) as [Hok Hkv].
  destruct (addNewResults qname new_ b) as [[st d] b']. simpl in Hd, Ht, Hok, Hkv.
  subst d.
  split; [done|]. unfold diff; simpl.
  split; [intros r; apply list_elem_of_difference|].
  split; [intros r; apply list_elem_of_difference|].
  split.
  - intros r [Ha Hr]. apply list_elem_of_difference in Ha, Hr.
    by destruct Ha as [_ Hn], Hr as [Hb _].
  - split; [|done]. rewrite Hkv. apply lookup_insert_eq.
Qed.

(** An unchanged row set leaves both differences empty, and is stored all
    the same. *)
Lemma diff_same (rs : QueryData) : diff rs rs = mkDiffResults [] [].
Proof.
  unfold diff. f_equal; apply elem_of_nil_inv; intros r Hr;
    apply list_elem_of_difference in Hr; by destruct Hr.
Qed.

(** ** The size the monitor reports *)

Lemma row_chars_nonneg row : 0 ≤ row_chars row.
Proof.
  unfold row_chars. induction (map_to_list row) as [|kv l IH]; simpl; lia.
Qed.

Lemma total_chars_nonneg rs : 0 ≤ total_chars rs.
Proof.
  induction rs as [|row rs IH]; simpl; [lia|].
  pose proof (row_chars_nonneg row). lia.
Qed.

Lemma add_size_to_ulong s x :
  add_size (to_ulong s) x = to_ulong (s + Z.of_nat (String.length x)).
Proof. unfold add_size. apply to_ulong_add_l. Qed.

Lemma row_size_to_ulong row s :
  row_size row (to_ulong s) = to_ulong (s + row_chars row).
Proof.
  unfold row_size, row_chars. rewrite map_fold_foldr.
  induction (map_to_list row) as [|[k v] l IH]; simpl.
  - by rewrite Z.add_0_r.
  - rewrite IH, !add_size_to_ulong. f_equal. lia.
Qed.

Lemma fold_row_size_to_ulong rs s :
  fold_left (λ size row, row_size row size) rs (to_ulong s)
  = to_ulong (s + total_chars rs).
Proof.
  revert s. induction rs as [|row rs IH]; intros s; simpl.
  - by rewrite Z.add_0_r.
  - rewrite row_size_to_ulong, IH. f_equal. lia.
Qed.

Lemma output_size_wraps rs : output_size rs = to_ulong (total_chars rs).
Proof.
  unfold output_size. change 0 with (to_ulong 0) at 1.
  by rewrite fold_row_size_to_ulong.
Qed.

Lemma output_size_exact rs :
  total_chars rs < ULONG_MOD → output_size rs = total_chars rs.
Proof.
  intros Hlt. rewrite output_size_wraps. apply to_ulong_small.
  pose proof (total_chars_nonneg rs). lia.
Qed.

(** ** Frames of the monadic steps *)

Ltac run_m :=
  unfold logSnapshotQuery, logQueryLogItem, ask, observe, write_log, send,
    record_perf, enter_launch, with_backend, mbind, M_bind, mret, M_ret;
  simpl.

Lemma monitor_result qname q w :
  (monitor qname q w).1 = SQLInternal (S (S (instant w))) (query q).
Proof. unfold monitor. run_m. by repeat case_match. Qed.

Lemma monitor_frame qname q w :
  let w' := (monitor qname q w).2 in
  instant w' = (5 + instant w)%nat ∧ backend w' = backend w ∧ sink w' = sink w
  ∧ log w' = log w ∧ launched w' = launched w.
Proof. unfold monitor. run_m. by repeat case_match. Qed.

Lemma run_query_frame qname q w :
  let w' := (run_query qname q w).2 in
  backend w' = backend w ∧ sink w' = sink w
  ∧ log w' = log w ∧ launched w' = launched w.
Proof.
  unfold run_query. destruct FLAGS_enable_monitor.
  - by destruct (monitor_frame qname q w) as (_ & ? & ? & ? & ?).
  - by run_m.
Qed.

Lemma run_query_result qname q w :
  (run_query qname q w).1
  = SQLInternal (if FLAGS_enable_monitor then S (S (instant w)) else instant w) (query q).
Proof.
  unfold run_query. destruct FLAGS_enable_monitor; [apply monitor_result | done].
Qed.

(** What one call of [launchQuery] does to the sink and to the backend,
    case by case along the branches of the code. *)
Lemma launchQuery_cases qname q w :
  let sql := (run_query qname q w).1 in
  let w' := (launchQuery qname q w).2 in
  let store := addNewResults qname (rows sql) (backend w) in
  launched w' = launched w ++ [(qname, q)]
  ∧ if negb (sql_ok sql) then sink w' = sink w ∧ backend w' = backend w
    else ∃ ident unix ascii,
      if option_set "snapshot" (options q) then
        sink w' = sink w ++ [SnapshotItem
                     (mkQueryLogItem (mkDiffResults [] []) (rows sql) qname ident unix ascii)]
        ∧ backend w' = backend w
      else
        backend w' = store.2
        ∧ if negb (ok store.1.1) then sink w' = sink w
          else if (length (added store.1.2) =? 0)%nat && (length (removed store.1.2) =? 0)%nat
          then sink w' = sink w
          else sink w' = sink w ++ [DifferentialItem
                 (mkQueryLogItem
                    (if option_cleared "removed" (options q)
                     then mkDiffResults (added store.1.2) [] else store.1.2)
                    [] qname ident unix ascii)].
Proof.
  intros sql w' store. subst w'.
  destruct (launchQuery qname q w) as [u w'] eqn:E. simpl.
  unfold launchQuery in E.
  change (if FLAGS_enable_monitor then monitor qname q
          else ask (λ n, SQLInternal n (query q))) with (run_query qname q) in E.
  unfold mbind at 1 2 3 in E. unfold M_bind at 1 2 3 in E. simpl in E.
  match type of E with context [run_query qname q ?w0] =>
    pose proof (run_query_result qname q w0) as Hres;
    pose proof (run_query_frame qname q w0) as Hfr;
    destruct (run_query qname q w0) as [a w1]
  end.
  simpl in Hres, Hfr. rewrite <- (run_query_result qname q w) in Hres.
  fold sql in Hres. subst a.
  destruct Hfr as (Hb & Hs & _ & Hl). destruct w1 as [n1 b1 s1 p1 l1 la1].
  simpl in Hb, Hs, Hl. subst b1 s1 la1.
  destruct (sql_ok sql); simpl in E |- *.
  2: { injection E as _ <-. done. }
  revert E. run_m.
  destruct (option_set "snapshot" (options q)); simpl.
  { intros [= _ <-]. split; [done|]. by eexists _, _, _. }
  fold store. destruct store as [[st d] b']. simpl.
  destruct (ok st); simpl.
  2: { intros [= _ <-]. split; [done|]. by exists "", 0, "". }
  destruct ((length (added d) =? 0)%nat && (length (removed d) =? 0)%nat); simpl.
  { intros [= _ <-]. split; [done|]. by exists "", 0, "". }
  destruct (ok _); intros [= _ <-]; (split; [done|]); by eexists _, _, _.
Qed.

(** ** One tick *)

Lemma launchQuery_launched qname q w :
  launched (launchQuery qname q w).2 = launched w ++ [(qname, q)].
Proof. apply launchQuery_cases. Qed.

Lemma tick_cons_ok i qname q rest w :
  0 < splayed_interval q < ULONG_MOD →
  tick i ((qname, q) :: rest) w
  = tick i rest (if due i (qname, q) then (launchQuery qname q w).2 else w).
Proof.
  intros Hq. simpl. rewrite to_ulong_small by lia.
  destruct (Z.eqb_spec (splayed_interval q) 0) as [?|_]; [lia|].
  unfold due. simpl. by destruct (i mod splayed_interval q =? 0).
Qed.

Lemma tick_app i pre post w :
  tick i (pre ++ post) w = tick i pre w ≫= tick i post.
Proof.
  revert w. induction pre as [|[qname q] pre IH]; intros w; simpl; [done|].
  destruct (to_ulong (splayed_interval q) =? 0); [done|].
  destruct (i mod to_ulong (splayed_interval q) =? 0); apply IH.
Qed.

Lemma tick_launches i sched w :
  schedule_ok sched →
  ∃ w', tick i sched w = Some w'
        ∧ launched w' = launched w ++ filter (λ e, due i e) sched.
Proof.
  intros Hok. revert w.
  induction Hok as [|[qname q] rest Hq _ IH]; intros w.
  - exists w. by rewrite app_nil_r.
  - simpl in Hq. rewrite (tick_cons_ok _ _ _ _ _ Hq).
    destruct (due i (qname, q)) eqn:Hdue.
    + destruct (IH (launchQuery qname q w).2) as (w' & -> & Hl).
      exists w'. split; [done|].
      rewrite Hl, launchQuery_launched, filter_cons_True; [|by rewrite Hdue].
      by rewrite <- app_assoc.
    + destruct (IH w) as (w' & -> & Hl).
      exists w'. split; [done|].
      rewrite filter_cons_False; [done|]. rewrite Hdue. by intros [].
Qed.

Lemma launch_all_launched w ran : launched (launch_all w ran) = launched w ++ ran.
Proof.
  unfold launch_all. revert w. induction ran as [|[qname q] ran IH]; intros w; simpl.
  - by rewrite app_nil_r.
  - rewrite IH, launchQuery_launched. by rewrite <- app_assoc.
Qed.

(** A tick over a snapshot that can be scheduled is the launches of its due
    entries, in order. *)
Lemma tick_runs_due i sched w :
  schedule_ok sched →
  tick i sched w = Some (launch_all w (filter (λ e, due i e) sched)).
Proof.
  intros Hok. revert w.
  induction Hok as [|[qname q] rest Hq _ IH]; intros w; [done|].
  simpl in Hq. rewrite (tick_cons_ok _ _ _ _ _ Hq).
  destruct (due i (qname, q)) eqn:Hdue.
  - rewrite filter_cons_True by (by rewrite Hdue). apply IH.
  - rewrite filter_cons_False; [apply IH|]. rewrite Hdue. by intros [].
Qed.

(** ** Result emission *)

Lemma nonempty_diff (d : DiffResults) :
  added d ≠ [] ∨ removed d ≠ [] →
  (length (added d) =? 0)%nat && (length (removed d) =? 0)%nat = false.
Proof.
  intros Hne. apply andb_false_iff.
  destruct Hne as [Hne|Hne]; [left|right]; apply Nat.eqb_neq;
    by destruct (added d), (removed d).
Qed.

(** C4: a query whose options hold [snapshot = true] and whose execution
    succeeded sends one snapshot item carrying the full row set to the
    logging sink, and leaves the backend of the differential store as it
    was, access trace included: no baseline is read or written. *)
Theorem snapshot_query_bypasses_store (qname : string) (q : ScheduledQuery) (w : World) :
  options q !! "snapshot" = Some true →
  sql_ok (run_query qname q w).1 = true →
  let sql := (run_query qname q w).1 in
  let w' := (launchQuery qname q w).2 in
  (∃ item, sink w' = sink w ++ [SnapshotItem item]
           ∧ snapshot_results item = rows sql
           ∧ name item = qname
           ∧ results item = mkDiffResults [] [])
  ∧ backend w' = backend w.
Proof.
  intros Hsnap Hok sql w'. subst sql w'.
  destruct (launchQuery_cases qname q w) as (_ & Hc). simpl in Hc.
  unfold option_set in Hc. rewrite Hok, Hsnap in Hc. simpl in Hc.
  destruct Hc as (ident & unix & ascii & Hs & Hb).
  split; [|done]. eexists. split; [exact Hs|]. done.
Qed.

(** C5: for a differential query whose options hold [removed = false],
    when the store accepted the rows and the difference is not empty, the
    item sent keeps [added] and has [removed] cleared, while the backend is
    the one the store left after it was given the full row set: the stored
    baseline is the unsuppressed new row set. *)
Theorem removed_suppression_is_display_only (qname : string) (q : ScheduledQuery) (w : World) :
  options q !! "removed" = Some false →
  option_set "snapshot" (options q) = false →
  sql_ok (run_query qname q w).1 = true →
  let sql := (run_query qname q w).1 in
  let store := addNewResults qname (rows sql) (backend w) in
  ok store.1.1 = true →
  added store.1.2 ≠ [] ∨ removed store.1.2 ≠ [] →
  let w' := (launchQuery qname q w).2 in
  (∃ item, sink w' = sink w ++ [DifferentialItem item]
           ∧ added (results item) = added store.1.2
           ∧ removed (results item) = []
           ∧ snapshot_results item = []
           ∧ name item = qname)
  ∧ backend w' = store.2
  ∧ kv (backend w') !! qname = Some (rows sql).
Proof.
  intros Hrem Hsnap Hok sql store Hst Hne w'. subst w'.
  destruct (launchQuery_cases qname q w) as (_ & Hc). simpl in Hc.
  fold sql store in Hc. unfold sql in Hc at 1. rewrite Hok, Hsnap in Hc. simpl in Hc.
  destruct Hc as (ident & unix & ascii & Hb & Hs).
  rewrite Hst in Hs. simpl in Hs.
  rewrite (nonempty_diff _ Hne) in Hs.
  unfold option_cleared in Hs. rewrite Hrem in Hs. simpl in Hs.
  split; [eexists; split; [exact Hs|done]|]. split; [done|].
  rewrite Hb. by apply addNewResults_ok_kv.
Qed.

(** C6: when a differential query's difference has an empty [added] and an
    empty [removed], nothing is sent to the logging sink. *)
Theorem empty_diff_emits_nothing (qname : string) (q : ScheduledQuery) (w : World) :
  option_set "snapshot" (options q) = false →
  let sql := (run_query qname q w).1 in
  let d := (addNewResults qname (rows sql) (backend w)).1.2 in
  added d = [] → removed d = [] →
  sink (launchQuery qname q w).2 = sink w.
Proof.
  intros Hsnap sql d Ha Hr.
  destruct (launchQuery_cases qname q w) as (_ & Hc). simpl in Hc.
  fold sql in Hc. fold d in Hc. rewrite Hsnap, Ha, Hr in Hc. simpl in Hc.
  destruct (sql_ok sql); simpl in Hc; [|by destruct Hc].
  destruct Hc as (_ & _ & _ & _ & Hs). by destruct (ok _).
Qed.

(** C10: absent option keys behave as unset.  Without a ["snapshot"] key a
    successfully executed query goes through the differential store (the
    backend afterwards is the one [addNewResults] leaves, no snapshot item
    is sent); without a ["removed"] key the item sent carries the
    difference with its [removed] rows as computed. *)
Theorem absent_options_behave_as_unset (qname : string) (q : ScheduledQuery) (w : World) :
  sql_ok (run_query qname q w).1 = true →
  let sql := (run_query qname q w).1 in
  let store := addNewResults qname (rows sql) (backend w) in
  let w' := (launchQuery qname q w).2 in
  (options q !! "snapshot" = None →
     backend w' = store.2
     ∧ trace (backend w') = trace (backend w) ++ [Get qname; Put qname]
     ∧ ∀ item, SnapshotItem item ∉ drop (length (sink w)) (sink w'))
  ∧ (options q !! "removed" = None →
     option_set "snapshot" (options q) = false →
     ok store.1.1 = true →
     added store.1.2 ≠ [] ∨ removed store.1.2 ≠ [] →
     ∃ item, sink w' = sink w ++ [DifferentialItem item]
             ∧ results item = store.1.2
             ∧ name item = qname).
Proof.
  intros Hok sql store w'. subst w'.
  destruct (launchQuery_cases qname q w) as (_ & Hc). simpl in Hc.
  fold sql store in Hc. unfold sql in Hc at 1. rewrite Hok in Hc. simpl in Hc.
  destruct Hc as (ident & unix & ascii & Hc).
  split.
  - intros Hsnap. unfold option_set in Hc. rewrite Hsnap in Hc.
    destruct Hc as [Hb Hs]. split; [done|].
    split; [rewrite Hb; apply addNewResults_trace|].
    intros item.
    destruct (negb (ok store.1.1)); [rewrite Hs, drop_all; apply not_elem_of_nil|].
    destruct (_ && _); [rewrite Hs, drop_all; apply not_elem_of_nil|].
    rewrite Hs, drop_app_length, list_elem_of_singleton. discriminate.
  - intros Hrem Hsnap Hst Hne. rewrite Hsnap in Hc. destruct Hc as [_ Hs].
    rewrite Hst in Hs. simpl in Hs.
    rewrite (nonempty_diff _ Hne) in Hs.
    unfold option_cleared in Hs. rewrite Hrem in Hs.
    eexists. split; [exact Hs|done].
Qed.

(** ** The execution monitor *)

Lemma monitor_perf qname q w :
  let pid := to_string getpid in
  let r0 := selectAllFrom (instant w) "processes" "pid" EQUALS pid in
  let t0 := std_time (1 + instant w) in
  let sql := SQLInternal (2 + instant w) (query q) in
  let t1 := std_time (3 + instant w) in
  let r1 := selectAllFrom (4 + instant w) "processes" "pid" EQUALS pid in
  perf (monitor qname q w).2
  = perf w ++ match r0, r1 with
              | before :: _, after :: _ =>
                  [mkPerformanceSample qname (t1 - t0) (output_size (rows sql)) before after]
              | _, _ => []
              end.
Proof.
  unfold monitor. run_m.
  destruct (selectAllFrom (instant w) _ _ _ _) as [|before r0];
    [by rewrite app_nil_r|].
  destruct (selectAllFrom (S (S (S (S (instant w))))) _ _ _ _) as [|after r1];
    [by rewrite app_nil_r|].
  done.
Qed.

(** C8: with monitoring enabled, executing a query hands a performance
    sample to the configuration exactly when both self-samples of the
    process table are non-empty; the sample's size is the sum of the
    character lengths of all column names and values of the result rows
    (which, being resident in memory, total less than [2^64]); and whatever
    the self-samples are, the result returned is the query engine's own. *)
Theorem monitor_records_iff_sampled (qname : string) (q : ScheduledQuery) (w : World) :
  FLAGS_enable_monitor = true →
  let pid := to_string getpid in
  let r0 := selectAllFrom (instant w) "processes" "pid" EQUALS pid in
  let t0 := std_time (1 + instant w) in
  let sql := SQLInternal (2 + instant w) (query q) in
  let t1 := std_time (3 + instant w) in
  let r1 := selectAllFrom (4 + instant w) "processes" "pid" EQUALS pid in
  let w' := (run_query qname q w).2 in
  total_chars (rows sql) < ULONG_MOD →
  (run_query qname q w).1 = sql
  ∧ ((r0 ≠ [] ∧ r1 ≠ []) ↔ ∃ p, perf w' = perf w ++ [p])
  ∧ (∀ p, perf w' = perf w ++ [p] →
       perf_name p = qname
       ∧ perf_delay p = t1 - t0
       ∧ perf_size p = total_chars (rows sql)
       ∧ r0 !! 0%nat = Some (perf_r0 p)
       ∧ r1 !! 0%nat = Some (perf_r1 p))
  ∧ (r0 = [] ∨ r1 = [] → perf w' = perf w).
Proof.
  intros Hmon pid r0 t0 sql t1 r1 w' Hsize. subst w'.
  unfold run_query. rewrite Hmon.
  split; [apply monitor_result|].
  pose proof (monitor_perf qname q w) as Hp. cbv zeta in Hp.
  fold pid r0 t0 sql t1 r1 in Hp. rewrite (output_size_exact _ Hsize) in Hp.
  rewrite Hp. clear Hp.
  set (samples := match r0, r1 with
                  | before :: _, after :: _ =>
                      [mkPerformanceSample qname (t1 - t0) (total_chars (rows sql))
                                           before after]
                  | _, _ => []
                  end).
  assert (Hinv : ∀ p, perf w ++ samples = perf w ++ [p] ↔ samples = [p]).
  { intros p. split; [apply app_inv_head | by intros ->]. }
  setoid_rewrite Hinv. clear Hinv. subst samples.
  destruct r0 as [|before r0], r1 as [|after r1]; simpl; rewrite ?app_nil_r;
    (split; [split; [intros [? ?]; by eauto | by intros [? ?]] |]);
    (split; [by intros p [= <-] | by intros [?|?]]).
Qed.

(** ** The scheduling loop *)

Lemma tick_total i sched w : schedule_ok sched → is_Some (tick i sched w).
Proof. intros Hok. destruct (tick_launches i sched w Hok) as (w' & -> & _). by eexists. Qed.

(** One iteration whose guard holds and whose snapshot can be scheduled:
    the tick completes, then the loop either is cancelled in its sleep or
    goes on with the next counter value. *)
Lemma loop_step fuel n i w :
  (timeout_ =? 0) || (i <=? timeout_) = true →
  schedule_ok (config_schedule (instant w)) →
  ∃ w2, loop (S fuel) n i w
        = if sleep_interrupted (instant w2) (to_ulong (interval_ * 1000))
          then (Interrupted, S n, (observe w2).2)
          else loop fuel (S n) (to_ulong (i + 1)) (observe w2).2.
Proof.
  intros Hguard Hok. simpl. rewrite Hguard. run_m.
  match goal with |- context [tick i _ ?w1] =>
    destruct (tick_total i (config_schedule (instant w)) w1 Hok) as [w2 ->]
  end.
  by exists w2.
Qed.

Lemma loop_never_faults fuel n i w :
  (∀ k, schedule_ok (config_schedule k)) →
  (loop fuel n i w).1.1 ≠ Faulted.
Proof.
  intros Hok. revert n i w. induction fuel as [|fuel IH]; intros n i w; [done|].
  destruct ((timeout_ =? 0) || (i <=? timeout_)) eqn:Hguard.
  - destruct (loop_step fuel n i w Hguard (Hok _)) as [w2 ->].
    destruct (sleep_interrupted _ _); [done | apply IH].
  - simpl. by rewrite Hguard.
Qed.

Lemma loop_unbounded_never_times_out fuel n i w :
  timeout_ = 0 → (loop fuel n i w).1.1 ≠ TimedOut.
Proof.
  intros HT. revert n i w. induction fuel as [|fuel IH]; intros n i w; [done|].
  simpl. rewrite HT. simpl. run_m.
  destruct (tick i _ _); [|done].
  destruct (sleep_interrupted _ _); [done | apply IH].
Qed.

Lemma loop_unbounded fuel n i w :
  timeout_ = 0 →
  (∀ k, schedule_ok (config_schedule k)) →
  (∀ k ms, sleep_interrupted k ms = false) →
  (loop fuel n i w).1 = (StillRunning, (n + fuel)%nat).
Proof.
  intros HT Hok Hsleep. revert n i w.
  induction fuel as [|fuel IH]; intros n i w; [simpl; f_equal; lia|].
  destruct (loop_step fuel n i w) as [w2 ->]; [by rewrite HT | apply Hok |].
  rewrite Hsleep, IH. f_equal. lia.
Qed.

(** The number of iterations a bounded run performs from counter [i]. *)
Lemma loop_bounded fuel n i w :
  0 < timeout_ < ULONG_MOD - 1 →
  (∀ k, schedule_ok (config_schedule k)) →
  (∀ k ms, sleep_interrupted k ms = false) →
  0 ≤ i < ULONG_MOD →
  (Z.to_nat (timeout_ + 1 - i) < fuel)%nat →
  (loop fuel n i w).1 = (TimedOut, (n + Z.to_nat (timeout_ + 1 - i))%nat).
Proof.
  intros HT Hok Hsleep. revert n i w.
  induction fuel as [|fuel IH]; intros n i w Hi Hfuel; [lia|].
  destruct (Z.leb_spec i timeout_) as [Hle|Hgt].
  - destruct (loop_step fuel n i w) as [w2 ->].
    { apply orb_true_iff. right. by apply Z.leb_le. }
    { apply Hok. }
    rewrite Hsleep, to_ulong_small by lia.
    rewrite IH by lia. f_equal. lia.
  - simpl. destruct (Z.eqb_spec timeout_ 0) as [?|_]; [lia|].
    destruct (Z.leb_spec i timeout_) as [?|_]; [lia|].
    simpl. f_equal. lia.
Qed.

Lemma to_ulong_range z : 0 ≤ to_ulong z < ULONG_MOD.
Proof. unfold to_ulong. apply Z.mod_pos_bound. reflexivity. Qed.

(** C3, as the code has it: the counter starts at the seconds-of-minute
    [s] and the loop runs while it is at most the timeout.  With a non-zero
    timeout [T] (below the largest [unsigned long]) and no cancellation the
    loop ends after exactly [T + 1 - s] iterations when [s ≤ T], and after
    none when [s > T]; with a zero timeout it never ends by its condition,
    and without cancellation it is still running after any number of
    iterations. *)
Theorem start_iteration_count (fuel : nat) (w : World) :
  (∀ k, schedule_ok (config_schedule k)) →
  0 ≤ timeout_ < ULONG_MOD - 1 →
  let s := to_ulong (localtime_tm_sec (std_time (instant w))) in
  (timeout_ ≠ 0 →
     (∀ k ms, sleep_interrupted k ms = false) →
     (Z.to_nat (timeout_ + 1 - s) < fuel)%nat →
     (start fuel w).1 = (TimedOut, Z.to_nat (timeout_ + 1 - s)))
  ∧ (timeout_ = 0 →
     (start fuel w).1.1 ≠ TimedOut
     ∧ ((∀ k ms, sleep_interrupted k ms = false) →
        (start fuel w).1 = (StillRunning, fuel))).
Proof.
  intros Hok HT s. unfold start. run_m. fold s. split.
  - intros Hnz Hsleep Hfuel.
    rewrite loop_bounded; [done|lia|done|done|apply to_ulong_range|done].
  - intros Hz. split; [by apply loop_unbounded_never_times_out|].
    intros Hsleep. by rewrite loop_unbounded.
Qed.

(** C7: a query whose execution returns an error sends nothing to the
    logging sink and leaves the backend untouched.  The tick goes on from
    that state: it launches the remaining due queries of the snapshot, in
    order, and completes.  The loop goes on too: the iteration in which the
    query failed ends in the sleep, and unless that sleep is cancelled the
    loop takes up the next iteration with the next counter value; no run of
    the loop, whatever the queries answer, ends in a fault. *)
Theorem failed_query_is_isolated (qname : string) (q : ScheduledQuery) (w : World) :
  sql_ok (run_query qname q w).1 = false →
  let w' := (launchQuery qname q w).2 in
  sink w' = sink w
  ∧ backend w' = backend w
  ∧ (∀ i rest, schedule_ok ((qname, q) :: rest) → due i (qname, q) = true →
       tick i ((qname, q) :: rest) w = tick i rest w'
       ∧ tick i rest w' = Some (launch_all w' (filter (λ e, due i e) rest))
       ∧ ∃ w'', tick i rest w' = Some w''
                ∧ launched w'' = launched w' ++ filter (λ e, due i e) rest)
  ∧ (∀ fuel n i w0 before after,
       (timeout_ =? 0) || (i <=? timeout_) = true →
       config_schedule (instant w0) = before ++ (qname, q) :: after →
       schedule_ok (config_schedule (instant w0)) →
       due i (qname, q) = true →
       tick i before (observe w0).2 = Some w →
       let w2 := launch_all w' (filter (λ e, due i e) after) in
       tick i (config_schedule (instant w0)) (observe w0).2 = Some w2
       ∧ loop (S fuel) n i w0
         = if sleep_interrupted (instant w2) (to_ulong (interval_ * 1000))
           then (Interrupted, S n, (observe w2).2)
           else loop fuel (S n) (to_ulong (i + 1)) (observe w2).2)
  ∧ ((∀ k, schedule_ok (config_schedule k)) →
       ∀ fuel n i w0, (loop fuel n i w0).1.1 ≠ Faulted).
Proof.
  intros Hfail w'. subst w'.
  destruct (launchQuery_cases qname q w) as (_ & Hc). simpl in Hc.
  rewrite Hfail in Hc. simpl in Hc. destruct Hc as [Hs Hb].
  split; [done|]. split; [done|]. split; [|split].
  - intros i rest Hok Hdue. inversion_clear Hok as [|? ? Hq Hrest].
    rewrite tick_cons_ok, Hdue by done. split; [done|].
    split; [by apply tick_runs_due | by apply tick_launches].
  - intros fuel n i w0 before after Hguard Hcfg Hok Hdue Hbefore w2.
    assert (tick i (config_schedule (instant w0)) (observe w0).2 = Some w2) as Htick.
    { rewrite Hcfg in Hok |- *. apply Forall_app in Hok as [_ Hok].
      inversion_clear Hok as [|? ? Hq Hafter].
      rewrite tick_app, Hbefore. cbn [mbind option_bind].
      rewrite tick_cons_ok, Hdue by done. by apply tick_runs_due. }
    split; [done|].
    simpl. rewrite Hguard. revert Htick. run_m. by intros ->.
  - intros Hok fuel n i w0. by apply loop_never_faults.
Qed.

(** ** Schedule snapshots *)

Lemma build_schedule_ok (entries : Schedule) :
  Forall (λ e, splayed_interval e.2 < ULONG_MOD) entries →
  schedule_ok (build_schedule entries).1.
Proof.
  intros Hrange. unfold schedule_ok, build_schedule. simpl.
  apply Forall_forall. intros e [Hpos Hin]%list_elem_of_filter.
  rewrite Forall_forall in Hrange. specialize (Hrange e Hin). lia.
Qed.

(** C9: in a snapshot built by rejecting the non-positive splayed
    intervals (the intervals fitting an unsigned long), every query has a
    strictly positive splayed interval and every rejected query is reported
    and absent; the due-check then always divides by a positive number, so
    every tick completes and a loop over such snapshots never reaches the
    modulus fault. *)
Theorem built_snapshot_never_faults (entries : Schedule) :
  Forall (λ e, splayed_interval e.2 < ULONG_MOD) entries →
  let sched := (build_schedule entries).1 in
  let rejected := (build_schedule entries).2 in
  (∀ qname q, (qname, q) ∈ sched →
     0 < splayed_interval q ∧ 0 < to_ulong (splayed_interval q))
  ∧ (∀ qname q, (qname, q) ∈ entries → splayed_interval q ≤ 0 →
       ((qname, q) ∉ sched) ∧ qname ∈ rejected)
  ∧ (∀ i w, is_Some (tick i sched w))
  ∧ ((∀ k, ∃ es, Forall (λ e, splayed_interval e.2 < ULONG_MOD) es
                  ∧ config_schedule k = (build_schedule es).1) →
       ∀ fuel n i w, (loop fuel n i w).1.1 ≠ Faulted).
Proof.
  intros Hrange sched rejected.
  pose proof (build_schedule_ok entries Hrange) as Hok. fold sched in Hok.
  split; [|split; [|split]].
  - intros qname q Hin. unfold schedule_ok in Hok. rewrite Forall_forall in Hok.
    specialize (Hok _ Hin). simpl in Hok. rewrite to_ulong_small by lia. lia.
  - intros qname q Hin Hneg. subst sched rejected. unfold build_schedule. simpl.
    split.
    + rewrite list_elem_of_filter. simpl. lia.
    + apply list_elem_of_fmap. exists (qname, q). split; [done|].
      apply list_elem_of_filter. simpl. split; [lia|done].
  - intros i w. by apply tick_total.
  - intros Hcfg fuel n i w. apply loop_never_faults.
    intros k. destruct (Hcfg k) as (es & Hes & ->). by apply build_schedule_ok.
Qed.

(** ** The exact effect of [launchQuery] *)

(** The execution depends on the world only through its instant, and adds
    only to the performance samples. *)
Lemma run_query_world qname q w :
  ∃ samples,
    run_query qname q w
    = (SQLInternal (if FLAGS_enable_monitor then S (S (instant w)) else instant w) (query q),
       mkWorld ((if FLAGS_enable_monitor then 5 else 1) + instant w)%nat
               (backend w) (sink w) (perf w ++ samples) (log w) (launched w))
    ∧ (length samples ≤ 1)%nat
    ∧ (FLAGS_enable_monitor = false → samples = [])
    ∧ ∀ w0, instant w0 = instant w →
        perf (run_query qname q w0).2 = perf w0 ++ samples.
Proof.
  unfold run_query. destruct FLAGS_enable_monitor.
  - unfold monitor. run_m.
    destruct (selectAllFrom (instant w) _ _ _ _) as [|before r0] eqn:E0.
    { exists []. rewrite app_nil_r. split; [done|]. split; [simpl; lia|].
      split; [done|]. intros w0 ->. rewrite E0. by rewrite app_nil_r. }
    destruct (selectAllFrom (S (S (S (S (instant w))))) _ _ _ _) as [|after r1] eqn:E1.
    { exists []. rewrite app_nil_r. split; [done|]. split; [simpl; lia|].
      split; [done|]. intros w0 ->. rewrite E0, E1. by rewrite app_nil_r. }
    eexists [_]. split; [done|]. split; [simpl; lia|]. split; [done|].
    intros w0 ->. by rewrite E0, E1.
  - exists []. run_m. rewrite app_nil_r. split; [done|]. split; [simpl; lia|].
    split; [done|]. intros w0 _. by rewrite app_nil_r.
Qed.

Lemma launchQuery_exact qname q w :
  let sql := (run_query qname q w).1 in
  let w1 := (run_query qname q w).2 in
  let n0 := instant w1 in
  let store := addNewResults qname (rows sql) (backend w) in
  let item := launch_item qname q sql store n0 in
  let executing := VLOG1 ("Executing query: " +:+ query q) in
  let ran := launched w ++ [(qname, q)] in
  (launchQuery qname q w).2 =
    if negb (sql_ok sql) then
      mkWorld n0 (backend w) (sink w) (perf w1)
              (log w ++ [executing;
                         LOG_ERROR ("Error executing query (" +:+ query q +:+ "): "
                                    +:+ getMessageString sql)]) ran
    else if option_set "snapshot" (options q) then
      mkWorld (4 + n0) (backend w) (sink w ++ [SnapshotItem item]) (perf w1)
              (log w ++ [executing]) ran
    else if negb (ok store.1.1) then
      mkWorld (3 + n0) store.2 (sink w) (perf w1)
              (log w ++ [executing;
                         LOG_ERROR ("Error adding new results to database: "
                                    +:+ what store.1.1)]) ran
    else if (length (added store.1.2) =? 0)%nat && (length (removed store.1.2) =? 0)%nat then
      mkWorld (3 + n0) store.2 (sink w) (perf w1) (log w ++ [executing]) ran
    else
      mkWorld (4 + n0) store.2 (sink w ++ [DifferentialItem item]) (perf w1)
              (log w ++ [executing;
                         VLOG1 ("Found results for query (" +:+ qname
                                +:+ ") for host: " +:+ getHostIdentifier n0)]
                     ++ (if ok (logQueryLogItem_status (3 + n0) item) then []
                         else [LOG_ERROR ("Error logging the results of query ("
                                          +:+ query q +:+ "): "
                                          +:+ what (logQueryLogItem_status (3 + n0) item))]))
              ran.
Proof.
  intros sql w1 n0 store item executing ran.
  destruct (run_query_world qname q w) as (samples & Hrun & _ & _ & Hperf).
  destruct (launchQuery qname q w) as [u w'] eqn:E. simpl.
  unfold launchQuery in E.
  change (if FLAGS_enable_monitor then monitor qname q
          else ask (λ n, SQLInternal n (query q))) with (run_query qname q) in E.
  unfold mbind at 1 2 3 in E. unfold M_bind at 1 2 3 in E. simpl in E.
  match type of E with context [run_query qname q ?w0] =>
    destruct (run_query_world qname q w0) as (samples0 & Hrun0 & _ & _ & _);
    pose proof (Hperf w0 eq_refl) as Hp0;
    rewrite Hrun0 in E, Hp0
  end.
  simpl in Hp0. apply app_inv_head in Hp0. subst samples0.
  subst item store n0 w1 sql. rewrite Hrun. simpl. simpl in E.
  set (sql := SQLInternal _ (query q)) in *.
  set (store := addNewResults qname (rows sql) (backend w)) in *.
  destruct (sql_ok sql); simpl in E |- *.
  2: { injection E as _ <-. by rewrite <- app_assoc. }
  revert E. run_m. unfold launch_item.
  destruct (option_set "snapshot" (options q)); simpl.
  { by intros [= _ <-]. }
  fold store. destruct store as [[st d] b']. simpl.
  destruct (ok st); simpl.
  2: { intros [= _ <-]. by rewrite <- app_assoc. }
  destruct ((length (added d) =? 0)%nat && (length (removed d) =? 0)%nat); simpl.
  { by intros [= _ <-]. }
  destruct (ok _); intros [= _ <-]; simpl; by rewrite <- ?app_assoc, ?app_nil_r.
Qed.

(** ** What a launch sends and logs *)

Lemma launchQuery_sink qname q w :
  sink (launchQuery qname q w).2 = sink w
  ∨ ∃ e, sink (launchQuery qname q w).2 = sink w ++ [e].
Proof.
  rewrite launchQuery_exact.
  destruct (sql_ok _); simpl; [|by left].
  destruct (option_set _ _); simpl; [right; by eexists|].
  destruct (ok _); simpl; [|by left].
  destruct (_ && _); simpl; [by left | right; by eexists].
Qed.

(** X1: One call of [launchQuery] sends at most one item, after those already
    sent; it sends none when the execution failed. *)
Theorem launchQuery_sends_at_most_one (qname : string) (q : ScheduledQuery) (w : World) :
  let w' := (launchQuery qname q w).2 in
  (sink w' = sink w ∨ ∃ e, sink w' = sink w ++ [e])
  ∧ (sql_ok (run_query qname q w).1 = false → sink w' = sink w).
Proof.
  intros w'. subst w'. split; [apply launchQuery_sink|].
  intros Hfail. rewrite launchQuery_exact. by rewrite Hfail.
Qed.

Lemma tick_sink_launched i sched w w' :
  tick i sched w = Some w' →
  ∃ items ran,
    sink w' = sink w ++ items ∧ launched w' = launched w ++ ran
    ∧ (length items ≤ length ran)%nat.
Proof.
  revert w. induction sched as [|[qname q] rest IH]; intros w; simpl.
  - intros [= <-]. exists [], []. by rewrite !app_nil_r.
  - destruct (to_ulong (splayed_interval q) =? 0); [done|].
    destruct (i mod to_ulong (splayed_interval q) =? 0); [|apply IH].
    intros (items & ran & Hs & Hl & Hlen)%IH.
    rewrite launchQuery_launched in Hl.
    destruct (launchQuery_sink qname q w) as [He|[e He]];
      rewrite He in Hs.
    + exists items, ((qname, q) :: ran). rewrite Hs, Hl, <- app_assoc.
      split; [done|]. split; [done|]. simpl. lia.
    + exists (e :: items), ((qname, q) :: ran). rewrite Hs, Hl, <- !app_assoc.
      split; [done|]. split; [done|]. simpl. lia.
Qed.

(** X2: A completed tick only appends to the sink, and sends at most one item
    for each query it has launched. *)
Theorem tick_sends_at_most_one_per_launch (i : Z) (sched : Schedule) (w w' : World) :
  tick i sched w = Some w' →
  sink w `prefix_of` sink w'
  ∧ launched w `prefix_of` launched w'
  ∧ (length (sink w') - length (sink w) ≤ length (launched w') - length (launched w))%nat.
Proof.
  intros (items & ran & Hs & Hl & Hlen)%tick_sink_launched.
  rewrite Hs, Hl, !length_app.
  split; [by eexists|]. split; [by eexists|]. lia.
Qed.

(** X3: On a snapshot that can be scheduled, a tick launches the due queries
    once each, in the order of the schedule, and nothing else. *)
Theorem tick_launches_due_in_order (i : Z) (sched : Schedule) (w : World) :
  schedule_ok sched →
  ∃ w', tick i sched w = Some w'
        ∧ launched w' = launched w ++ filter (λ e, due i e) sched.
Proof. intros Hok. by apply tick_launches. Qed.

(** X4: When the counter is 0 every query of the snapshot is due, whatever
    its splayed interval, as long as no interval is zero as an
    [unsigned long]: the tick is then the launches of the whole schedule, in
    order.  With a zero interval in the snapshot the tick does not
    complete: it stops at the modulus by zero. *)
Theorem tick_zero_launches_all (sched : Schedule) (w : World) :
  (Forall (λ e, to_ulong (splayed_interval e.2) ≠ 0) sched →
     tick 0 sched w = Some (launch_all w sched)
     ∧ launched (launch_all w sched) = launched w ++ sched)
  ∧ (Exists (λ e, to_ulong (splayed_interval e.2) = 0) sched →
     tick 0 sched w = None).
Proof.
  split.
  - intros Hnz. split; [|apply launch_all_launched].
    revert w. induction Hnz as [|[qname q] rest Hq _ IH]; intros w; [done|].
    simpl in Hq |- *.
    destruct (Z.eqb_spec (to_ulong (splayed_interval q)) 0) as [?|_]; [done|].
    apply IH.
  - intros Hz. revert w. induction sched as [|[qname q] rest IH]; intros w.
    { by apply Exists_nil in Hz. }
    simpl. destruct (Z.eqb_spec (to_ulong (splayed_interval q)) 0) as [?|Hq]; [done|].
    apply Exists_cons in Hz as [Hz|Hz]; [done|].
    by apply IH.
Qed.

(** The lines a launch adds to the log. *)
Lemma launchQuery_log_grows qname q w :
  ∃ lines, log (launchQuery qname q w).2 = log w ++ lines.
Proof.
  rewrite launchQuery_exact.
  destruct (negb _); simpl; [by eexists|].
  destruct (option_set _ _); simpl; [by eexists|].
  destruct (negb _); simpl; [by eexists|].
  destruct (_ && _); simpl; by eexists.
Qed.

(** X5: [launchQuery] logs an error exactly when the execution failed, or, for
    a query that is not a snapshot, when the store refused the rows or the
    logger refused the item of a non-empty difference.  A snapshot item the
    logger refuses is not reported. *)
Theorem launchQuery_logs_error_iff (qname : string) (q : ScheduledQuery) (w : World) :
  let sql := (run_query qname q w).1 in
  let n0 := instant (run_query qname q w).2 in
  let store := addNewResults qname (rows sql) (backend w) in
  let item := launch_item qname q sql store n0 in
  let lines := drop (length (log w)) (log (launchQuery qname q w).2) in
  (∃ msg, LOG_ERROR msg ∈ lines)
  ↔ sql_ok sql = false
    ∨ (sql_ok sql = true
       ∧ option_set "snapshot" (options q) = false
       ∧ (ok store.1.1 = false
          ∨ (ok store.1.1 = true
             ∧ (added store.1.2 ≠ [] ∨ removed store.1.2 ≠ [])
             ∧ ok (logQueryLogItem_status (3 + n0) item) = false))).
Proof.
  intros sql n0 store item lines. subst lines.
  rewrite launchQuery_exact. fold sql n0 store item.
  destruct (sql_ok sql); simpl.
  2: { rewrite drop_app_length. split; [by left|]. intros _. eexists.
       apply elem_of_cons. right. by apply list_elem_of_singleton. }
  destruct (option_set "snapshot" (options q)); simpl.
  { rewrite drop_app_length. split.
    - intros [msg Hin%list_elem_of_singleton]. discriminate.
    - intros [?|(_ & ? & _)]; discriminate. }
  destruct (ok store.1.1); simpl.
  2: { rewrite drop_app_length. split; [right; by eauto|]. intros _. eexists.
       apply elem_of_cons. right. by apply list_elem_of_singleton. }
  destruct ((length (added store.1.2) =? 0)%nat && (length (removed store.1.2) =? 0)%nat)
    eqn:Hempty; simpl.
  { rewrite drop_app_length. split.
    - intros [msg Hin%list_elem_of_singleton]. discriminate.
    - intros [?|(_ & _ & [?|(_ & Hne & _)])]; try discriminate.
      by rewrite (nonempty_diff _ Hne) in Hempty. }
  rewrite drop_app_length.
  destruct (ok (logQueryLogItem_status _ _)); simpl.
  - split.
    + intros [msg Hin]. rewrite !elem_of_cons in Hin.
      destruct Hin as [?|[?|Hin%elem_of_nil]]; done.
    + intros [?|(_ & _ & [?|(_ & _ & ?)])]; discriminate.
  - split.
    + intros _. right. do 2 (split; [done|]). right. split; [done|]. split; [|done].
      apply andb_false_iff in Hempty.
      destruct Hempty as [H|H]; apply Nat.eqb_neq in H; [left|right];
        by intros E; rewrite E in H.
    + intros _. eexists. rewrite !elem_of_cons. right. right. by left.
Qed.

(** X6: When the logger refuses a differential item, the error is logged with
    the logger's message, and that is all: the item has been handed over,
    and the backend stays as [addNewResults] left it, nothing is undone. *)
Theorem logger_refusal_keeps_new_baseline (qname : string) (q : ScheduledQuery) (w : World) :
  let sql := (run_query qname q w).1 in
  let n0 := instant (run_query qname q w).2 in
  let store := addNewResults qname (rows sql) (backend w) in
  let item := launch_item qname q sql store n0 in
  let w' := (launchQuery qname q w).2 in
  sql_ok sql = true →
  option_set "snapshot" (options q) = false →
  ok store.1.1 = true →
  added store.1.2 ≠ [] ∨ removed store.1.2 ≠ [] →
  ok (logQueryLogItem_status (3 + n0) item) = false →
  backend w' = store.2
  ∧ sink w' = sink w ++ [DifferentialItem item]
  ∧ last (log w')
    = Some (LOG_ERROR ("Error logging the results of query (" +:+ query q +:+ "): "
                       +:+ what (logQueryLogItem_status (3 + n0) item))).
Proof.
  intros sql n0 store item w' Hsql Hsnap Hst Hne Hlog. subst w'.
  rewrite launchQuery_exact. fold sql n0 store item.
  rewrite Hsql, Hsnap, Hst, (nonempty_diff _ Hne), Hlog. simpl.
  split; [done|]. split; [done|]. by rewrite last_app.
Qed.

(** X7: When the store refuses the rows, nothing is sent, and the error is
    logged with the store's message. *)
Theorem store_refusal_sends_nothing (qname : string) (q : ScheduledQuery) (w : World) :
  let sql := (run_query qname q w).1 in
  let store := addNewResults qname (rows sql) (backend w) in
  let w' := (launchQuery qname q w).2 in
  sql_ok sql = true →
  option_set "snapshot" (options q) = false →
  ok store.1.1 = false →
  sink w' = sink w
  ∧ backend w' = store.2
  ∧ log w' = log w ++ [VLOG1 ("Executing query: " +:+ query q);
                       LOG_ERROR ("Error adding new results to database: "
                                  +:+ what store.1.1)].
Proof.
  intros sql store w' Hsql Hsnap Hst. subst w'.
  rewrite launchQuery_exact. fold sql store.
  by rewrite Hsql, Hsnap, Hst.
Qed.

Lemma run_query_same_text qname q1 q2 w :
  query q1 = query q2 → run_query qname q1 w = run_query qname q2 w.
Proof. intros Hq. unfold run_query, monitor. by rewrite Hq. Qed.

(** X8: Of a query, [launchQuery] reads the text and the two options
    ["snapshot"] and ["removed"]: queries that agree on these are treated
    alike, whatever their intervals and other option keys. *)
Theorem launchQuery_reads_text_and_two_options (qname : string) (q1 q2 : ScheduledQuery)
        (w : World) :
  query q1 = query q2 →
  option_set "snapshot" (options q1) = option_set "snapshot" (options q2) →
  option_cleared "removed" (options q1) = option_cleared "removed" (options q2) →
  let w1 := (launchQuery qname q1 w).2 in
  let w2 := (launchQuery qname q2 w).2 in
  instant w1 = instant w2 ∧ backend w1 = backend w2 ∧ sink w1 = sink w2
  ∧ perf w1 = perf w2 ∧ log w1 = log w2.
Proof.
  intros Hq Hsnap Hrem w1 w2. subst w1 w2.
  rewrite !launchQuery_exact. unfold launch_item.
  rewrite (run_query_same_text qname q1 q2 w Hq), Hq, Hsnap, Hrem.
  destruct (negb (sql_ok _)); simpl; [done|].
  destruct (option_set "snapshot" (options q2)); simpl; [done|].
  destruct (negb (ok _)); simpl; [done|].
  destruct (_ && _); simpl; done.
Qed.

(** ** What the loop keeps *)

Lemma launchQuery_perf qname q w :
  ∃ samples, perf (launchQuery qname q w).2 = perf w ++ samples
             ∧ (length samples ≤ 1)%nat
             ∧ (FLAGS_enable_monitor = false → samples = []).
Proof.
  destruct (run_query_world qname q w) as (samples & Hrun & Hlen & Hoff & _).
  exists samples. split; [|done].
  rewrite launchQuery_exact, Hrun. simpl.
  destruct (negb _); simpl; [done|].
  destruct (option_set _ _); simpl; [done|].
  destruct (negb _); simpl; [done|].
  by destruct (_ && _).
Qed.

Lemma launchQuery_appends qname q w :
  sink w `prefix_of` sink (launchQuery qname q w).2
  ∧ log w `prefix_of` log (launchQuery qname q w).2
  ∧ launched w `prefix_of` launched (launchQuery qname q w).2
  ∧ perf w `prefix_of` perf (launchQuery qname q w).2.
Proof.
  split; [|split; [|split]].
  - destruct (launchQuery_sink qname q w) as [->|[e ->]];
      [done | by eexists].
  - destruct (launchQuery_log_grows qname q w) as [lines ->]. by eexists.
  - rewrite launchQuery_launched. by eexists.
  - destruct (launchQuery_perf qname q w) as (samples & -> & _). by eexists.
Qed.

Lemma extends_refl w : extends w w.
Proof. by repeat split. Qed.

Lemma extends_trans w1 w2 w3 : extends w1 w2 → extends w2 w3 → extends w1 w3.
Proof.
  intros (? & ? & ? & ?) (? & ? & ? & ?).
  repeat split; by etrans.
Qed.

Lemma extends_observe w : extends w (observe w).2.
Proof. by repeat split. Qed.

Lemma tick_extends i sched w w' : tick i sched w = Some w' → extends w w'.
Proof.
  revert w. induction sched as [|[qname q] rest IH]; intros w; simpl.
  - intros [= <-]. apply extends_refl.
  - destruct (to_ulong (splayed_interval q) =? 0); [done|].
    destruct (i mod to_ulong (splayed_interval q) =? 0); [|apply IH].
    intros Ht%IH. eapply extends_trans; [|exact Ht]. apply launchQuery_appends.
Qed.

Lemma tick_reached_extends i sched w : extends w (tick_reached i sched w).
Proof.
  revert w. induction sched as [|[qname q] rest IH]; intros w; simpl.
  - apply extends_refl.
  - destruct (to_ulong (splayed_interval q) =? 0); [apply extends_refl|].
    destruct (i mod to_ulong (splayed_interval q) =? 0); [|apply IH].
    eapply extends_trans; [apply launchQuery_appends | apply IH].
Qed.

Lemma loop_extends fuel n i w : extends w (loop fuel n i w).2.
Proof.
  revert n i w. induction fuel as [|fuel IH]; intros n i w; simpl;
    [apply extends_refl|].
  destruct ((timeout_ =? 0) || (i <=? timeout_)); [|apply extends_refl].
  run_m.
  match goal with |- context [tick i ?sn ?w1] =>
    pose proof (extends_observe w) as H1;
    destruct (tick i sn w1) as [w2|] eqn:Ht
  end; [|eapply extends_trans; [exact H1 | apply tick_reached_extends]].
  apply tick_extends in Ht.
  destruct (sleep_interrupted _ _).
  - simpl. eapply extends_trans; [exact H1|]. eapply extends_trans; [exact Ht|].
    apply extends_observe.
  - eapply extends_trans; [exact H1|]. eapply extends_trans; [exact Ht|].
    eapply extends_trans; [apply extends_observe|]. apply IH.
Qed.

(** X9: However a run of the scheduler ends, the items sent, the log lines,
    the launches and the performance samples it started with are still
    there, in place, at the front of what it leaves. *)
Theorem start_only_appends (fuel : nat) (w : World) :
  let w' := (start fuel w).2 in
  sink w `prefix_of` sink w'
  ∧ log w `prefix_of` log w'
  ∧ launched w `prefix_of` launched w'
  ∧ perf w `prefix_of` perf w'.
Proof.
  unfold start. run_m.
  eapply extends_trans; [apply extends_observe | apply loop_extends].
Qed.

Lemma tick_perf_disabled i sched w w' :
  FLAGS_enable_monitor = false → tick i sched w = Some w' → perf w' = perf w.
Proof.
  intros Hoff. revert w. induction sched as [|[qname q] rest IH]; intros w; simpl.
  - by intros [= <-].
  - destruct (to_ulong (splayed_interval q) =? 0); [done|].
    destruct (i mod to_ulong (splayed_interval q) =? 0); [|apply IH].
    intros ->%IH. destruct (launchQuery_perf qname q w) as (samples & -> & _ & Hs).
    by rewrite (Hs Hoff), app_nil_r.
Qed.

Lemma tick_reached_perf_disabled i sched w :
  FLAGS_enable_monitor = false → perf (tick_reached i sched w) = perf w.
Proof.
  intros Hoff. revert w. induction sched as [|[qname q] rest IH]; intros w; simpl; [done|].
  destruct (to_ulong (splayed_interval q) =? 0); [done|].
  destruct (i mod to_ulong (splayed_interval q) =? 0); [|apply IH].
  rewrite IH. destruct (launchQuery_perf qname q w) as (samples & -> & _ & Hs).
  by rewrite (Hs Hoff), app_nil_r.
Qed.

Lemma loop_perf_disabled fuel n i w :
  FLAGS_enable_monitor = false → perf (loop fuel n i w).2 = perf w.
Proof.
  intros Hoff. revert n i w. induction fuel as [|fuel IH]; intros n i w; simpl; [done|].
  destruct ((timeout_ =? 0) || (i <=? timeout_)); [|done].
  run_m.
  match goal with |- context [tick i ?sn ?w1] =>
    destruct (tick i sn w1) as [w2|] eqn:Ht
  end; [|exact (tick_reached_perf_disabled i _ _ Hoff)].
  apply (tick_perf_disabled _ _ _ _ Hoff) in Ht. simpl in Ht.
  destruct (sleep_interrupted _ _); [done|]. by rewrite IH.
Qed.

(** X10: With the monitor disabled no performance sample is ever recorded, over
    a whole run; with it enabled a launch records at most one. *)
Theorem monitor_off_records_nothing (fuel : nat) (w : World) (qname : string)
        (q : ScheduledQuery) :
  (FLAGS_enable_monitor = false → perf (start fuel w).2 = perf w)
  ∧ (length (perf (launchQuery qname q w).2) ≤ S (length (perf w)))%nat.
Proof.
  split.
  - intros Hoff. unfold start. run_m. by rewrite loop_perf_disabled.
  - destruct (launchQuery_perf qname q w) as (samples & -> & Hlen & _).
    rewrite length_app. lia.
Qed.

(** ** A tick as the execution of its due queries *)

Lemma launchQuery_instant qname q w :
  (instant w < instant (launchQuery qname q w).2)%nat.
Proof.
  rewrite launchQuery_exact.
  destruct (run_query_world qname q w) as (samples & -> & _). simpl.
  destruct (negb _); simpl; [destruct FLAGS_enable_monitor; lia|].
  destruct (option_set _ _); simpl; [destruct FLAGS_enable_monitor; lia|].
  destruct (negb _); simpl; [destruct FLAGS_enable_monitor; lia|].
  destruct (_ && _); simpl; destruct FLAGS_enable_monitor; lia.
Qed.

Lemma launchQuery_executing_logged qname q w :
  VLOG1 ("Executing query: " +:+ query q) ∈ log (launchQuery qname q w).2.
Proof.
  rewrite launchQuery_exact.
  destruct (negb _); simpl; [apply elem_of_app; right; apply list_elem_of_here|].
  destruct (option_set _ _); simpl; [apply elem_of_app; right; apply list_elem_of_here|].
  destruct (negb _); simpl; [apply elem_of_app; right; apply list_elem_of_here|].
  destruct (_ && _); simpl; apply elem_of_app; right; apply list_elem_of_here.
Qed.

Lemma launch_all_extends w ran : extends w (launch_all w ran).
Proof.
  unfold launch_all. revert w. induction ran as [|[qname q] ran IH]; intros w; simpl.
  - apply extends_refl.
  - eapply extends_trans; [apply launchQuery_appends | apply IH].
Qed.

Lemma launch_all_instant w ran :
  (instant w + length ran ≤ instant (launch_all w ran))%nat.
Proof.
  unfold launch_all. revert w. induction ran as [|[qname q] ran IH]; intros w; simpl.
  - lia.
  - pose proof (launchQuery_instant qname q w).
    pose proof (IH (launchQuery qname q w).2). lia.
Qed.

Lemma launch_all_executing_logged w ran qname q :
  (qname, q) ∈ ran →
  VLOG1 ("Executing query: " +:+ query q) ∈ log (launch_all w ran).
Proof.
  revert w. induction ran as [|[qname0 q0] ran IH]; intros w Hin.
  { by apply elem_of_nil in Hin. }
  apply elem_of_cons in Hin as [[= -> ->]|Hin]; [|by apply IH].
  destruct (launch_all_extends (launchQuery qname0 q0 w).2 ran) as (_ & [k Hk] & _).
  change (launch_all w ((qname0, q0) :: ran))
    with (launch_all (launchQuery qname0 q0 w).2 ran).
  rewrite Hk. apply elem_of_app. left. apply launchQuery_executing_logged.
Qed.

(** C2: on a tick with counter [i] over a schedule snapshot whose splayed
    intervals are positive, the tick completes and the world it leaves is
    the one reached by executing, in schedule order, exactly those queries
    [q] of the snapshot with [i mod q.splayed_interval = 0]: [launchQuery]
    has run on each of them and on no other, each has been recorded as
    launched and announced in the log, and each has asked the query engine. *)
Theorem tick_executes_iff_due (i : Z) (sched : Schedule) (w : World) :
  schedule_ok sched →
  ∃ w' ran,
    tick i sched w = Some w'
    ∧ w' = launch_all w ran
    ∧ ran = filter (λ e, due i e) sched
    ∧ launched w' = launched w ++ ran
    ∧ (∀ qname q, (qname, q) ∈ sched →
         ((qname, q) ∈ ran ↔ i mod splayed_interval q = 0))
    ∧ (∀ qname q, (qname, q) ∈ ran →
         VLOG1 ("Executing query: " +:+ query q) ∈ log w')
    ∧ (instant w + length ran ≤ instant w')%nat.
Proof.
  intros Hok.
  exists (launch_all w (filter (λ e, due i e) sched)), (filter (λ e, due i e) sched).
  split; [by apply tick_runs_due|]. split; [done|]. split; [done|].
  split; [apply launch_all_launched|]. split; [|split].
  - intros qname q Hin. rewrite list_elem_of_filter. unfold due. simpl.
    rewrite Is_true_true, Z.eqb_eq. split; [by intros [? _] | by split].
  - intros qname q Hin. by apply (launch_all_executing_logged _ _ qname).
  - apply launch_all_instant.
Qed.

(** ** The loop's bounds *)

(** X13: A cancellation is noticed only in the sleep: when the loop is entered
    with its guard true, the tick runs its due queries first, also when
    every sleep is cancelled, and the run ends after that one iteration. *)
Theorem cancelled_loop_runs_one_tick (fuel n : nat) (i : Z) (w : World) :
  (timeout_ =? 0) || (i <=? timeout_) = true →
  schedule_ok (config_schedule (instant w)) →
  (∀ k ms, sleep_interrupted k ms = true) →
  let r := loop (S fuel) n i w in
  r.1 = (Interrupted, S n)
  ∧ launched r.2 = launched w ++ filter (λ e, due i e) (config_schedule (instant w)).
Proof.
  intros Hguard Hok Hsleep r. subst r. simpl. rewrite Hguard. run_m.
  match goal with |- context [tick i _ ?w1] =>
    destruct (tick_launches i (config_schedule (instant w)) w1 Hok) as (w2 & -> & Hl)
  end.
  by rewrite Hsleep.
Qed.

Lemma loop_counter_in_range fuel n i w :
  timeout_ = ULONG_MOD - 1 → 0 ≤ i < ULONG_MOD →
  (loop fuel n i w).1.1 ≠ TimedOut.
Proof.
  intros HT. revert n i w. induction fuel as [|fuel IH]; intros n i w Hi; [done|].
  simpl. replace (i <=? timeout_) with true by (symmetry; apply Z.leb_le; lia).
  rewrite orb_true_r. run_m.
  destruct (tick i _ _); [|done].
  destruct (sleep_interrupted _ _); [done|]. apply IH, to_ulong_range.
Qed.

(** X14: With the largest [unsigned long] as timeout the guard [i <= timeout_]
    always holds: the run never ends by its condition, as with timeout 0. *)
Theorem largest_timeout_never_times_out (fuel : nat) (w : World) :
  timeout_ = ULONG_MOD - 1 → (start fuel w).1.1 ≠ TimedOut.
Proof.
  intros HT. unfold start. run_m. apply loop_counter_in_range; [done|].
  apply to_ulong_range.
Qed.

(** X15: Started at a second of the minute beyond a non-zero timeout, the
    scheduler reads the clock and returns: no schedule is read, no query
    launched, nothing sent, stored, sampled or logged. *)
Theorem late_start_does_nothing (fuel : nat) (w : World) :
  timeout_ ≠ 0 →
  timeout_ < to_ulong (localtime_tm_sec (std_time (instant w))) →
  start (S fuel) w
  = (TimedOut, 0%nat,
     mkWorld (S (instant w)) (backend w) (sink w) (perf w) (log w) (launched w)).
Proof.
  intros Hnz Hlate. unfold start. run_m.
  destruct (Z.eqb_spec timeout_ 0) as [?|_]; [done|].
  destruct (Z.leb_spec (to_ulong (localtime_tm_sec (std_time (instant w)))) timeout_)
    as [?|_]; [lia|done].
Qed.

(** ** [startScheduler] *)

(** X16: [startScheduler()] always answers [Status(0, OK)], whatever the
    dispatcher answered to [addService]: its failure branch cannot be
    taken.  The calls it makes are one [addService], of a runner with the
    flag's timeout and an interval of one second, then [joinServices]. *)
Theorem startScheduler_always_ok (d : Dispatcher) :
  startScheduler d
  = (mkStatus 0 "OK",
     d ++ [AddService (mkSchedulerRunner FLAGS_schedule_timeout 1); JoinServices]).
Proof.
  unfold startScheduler, startScheduler_with, addService, joinServices. simpl.
  by rewrite <- app_assoc.
Qed.

End Scheduler.

(** * The monitor against the plain execution *)

Section MonitorTransparency.

Variable getpid : Z.
Variable to_string : Z → string.
Variable SQLInternal : nat → string → SQL.
Variable selectAllFrom : nat → string → string → ConstraintOperator → string → QueryData.
Variable std_time : nat → Z.
Variable getHostIdentifier : nat → string.
Variable getUnixTime : nat → Z.
Variable getAsciiTime : nat → string.
Variable logSnapshotQuery_status : nat → QueryLogItem → Status.
Variable logQueryLogItem_status : nat → QueryLogItem → Status.

(** X11: Enabling the monitor changes when the collaborators are asked, not
    what is done with their answers: if the query engine, the host
    identity, the clocks and the logger answer the same at every instant,
    a launch sends the same items, leaves the same backend and writes the
    same log lines with the monitor on as with it off. *)
Theorem monitor_is_transparent (qname : string) (q : ScheduledQuery) (w : World) :
  (∀ n m text, SQLInternal n text = SQLInternal m text) →
  (∀ n m, getHostIdentifier n = getHostIdentifier m) →
  (∀ n m, getUnixTime n = getUnixTime m) →
  (∀ n m, getAsciiTime n = getAsciiTime m) →
  (∀ n m item, logQueryLogItem_status n item = logQueryLogItem_status m item) →
  let launch monitoring :=
    (launchQuery monitoring getpid to_string SQLInternal selectAllFrom std_time
                 getHostIdentifier getUnixTime getAsciiTime
                 logSnapshotQuery_status logQueryLogItem_status qname q w).2 in
  sink (launch true) = sink (launch false)
  ∧ backend (launch true) = backend (launch false)
  ∧ log (launch true) = log (launch false).
Proof.
  intros Hsql Hhost Hunix Hascii Hlog launch. subst launch. cbv beta.
  rewrite !launchQuery_exact. unfold launch_item.
  destruct (run_query_world true getpid to_string SQLInternal selectAllFrom std_time
              qname q w) as (s1 & -> & _).
  destruct (run_query_world false getpid to_string SQLInternal selectAllFrom std_time
              qname q w) as (s2 & -> & _).
  cbn [fst snd instant].
  rewrite (Hsql (S (S (instant w))) (instant w)).
  set (sql := SQLInternal (instant w) (query q)).
  set (store := addNewResults qname (rows sql) (backend w)).
  rewrite (Hhost (5 + instant w)%nat (1 + instant w)%nat).
  rewrite (Hunix (S (5 + instant w)) (S (1 + instant w))).
  rewrite (Hascii (S (S (5 + instant w))) (S (S (1 + instant w)))).
  rewrite (Hlog (3 + (5 + instant w))%nat (3 + (1 + instant w))%nat).
  destruct (negb (sql_ok sql)); [done|].
  destruct (option_set "snapshot" (options q)); [done|].
  destruct (negb (ok store.1.1)); [done|].
  by destruct (_ && _).
Qed.

End MonitorTransparency.

(** * The size the monitor reports, over the rows *)

(** X12: The size does not depend on the order of the rows, and the size of
    two row sets put together is the sum of their sizes, reduced to a
    [size_t]. *)
Theorem output_size_order_and_sum (rs1 rs2 : QueryData) :
  (∀ rs, rs ≡ₚ rs1 → output_size rs = output_size rs1)
  ∧ output_size (rs1 ++ rs2) = to_ulong (output_size rs1 + output_size rs2).
Proof.
  assert (∀ a b, total_chars (a ++ b) = total_chars a + total_chars b) as Happ.
  { intros a b. induction a as [|row a IH]; simpl; [done|]. rewrite IH. lia. }
  split.
  - intros rs Hperm. rewrite !output_size_wraps. f_equal.
    induction Hperm as [|row l l' _ IH|row row' l|l l' l'' _ IH1 _ IH2]; simpl;
      [done | by rewrite IH | lia | by rewrite IH1].
  - rewrite !output_size_wraps, Happ. unfold to_ulong.
    by rewrite <- Zplus_mod.
Qed.

(** * The properties on the sample host *)

Abbreviation sample_run :=
  (run_query true 4242 Sample.pid_string Sample.engine Sample.processes Sample.clock).
Abbreviation sample_launch :=
  (launchQuery true 4242 Sample.pid_string Sample.engine Sample.processes Sample.clock
               Sample.host Sample.clock Sample.ascii Sample.accept Sample.accept).
Abbreviation sample_tick :=
  (tick true 4242 Sample.pid_string Sample.engine Sample.processes Sample.clock
        Sample.host Sample.clock Sample.ascii Sample.accept Sample.accept).
Abbreviation sample_start timeout :=
  (start true 4242 Sample.pid_string Sample.engine Sample.processes Sample.clock
         Sample.host Sample.clock Sample.ascii Sample.accept Sample.accept
         Sample.config Sample.seconds_of_minute Sample.never timeout 1).

Abbreviation sample_launch_all :=
  (launch_all true 4242 Sample.pid_string Sample.engine Sample.processes Sample.clock
              Sample.host Sample.clock Sample.ascii Sample.accept Sample.accept).
Abbreviation sample_run_loop timeout :=
  (loop true 4242 Sample.pid_string Sample.engine Sample.processes Sample.clock
        Sample.host Sample.clock Sample.ascii Sample.accept Sample.accept
        Sample.config Sample.never timeout 1).

Lemma sample_schedule_ok : schedule_ok Sample.schedule.
Proof. repeat constructor. Defined.

(** Scenario A: no baseline, the query returns two rows. *)
Example scenario_A :
  addNewResults "q" [Sample.rowA; Sample.rowB] (backend Sample.fresh)
  = (mkStatus 0 "OK", mkDiffResults [Sample.rowA; Sample.rowB] [],
     mkBackend {[ "q" := [Sample.rowA; Sample.rowB] ]} ∅ [Get "q"; Put "q"]).
Proof. by vm_compute. Qed.

(** Scenario B: a baseline of two rows, the query returns one of them. *)
Example scenario_B :
  let w' := (sample_launch "diff" Sample.q_diff Sample.world).2 in
  (∃ item, sink w' = [DifferentialItem item]
           ∧ results item = mkDiffResults [] [Sample.rowB])
  ∧ kv (backend w') !! "diff" = Some [Sample.rowA].
Proof. split; [eexists; split|]; by vm_compute. Qed.

(** Scenario C: the same with [removed = false]. *)
Example scenario_C :
  let w' := (sample_launch "quiet" Sample.q_quiet Sample.world).2 in
  (∃ item, sink w' = [DifferentialItem item]
           ∧ results item = mkDiffResults [] [])
  ∧ kv (backend w') !! "quiet" = Some [Sample.rowA].
Proof. split; [eexists; split|]; by vm_compute. Qed.

Lemma addNewResults_diff_and_persist_witness :
("diff" ∉ rejecting Sample.store)
  ∧ let '(st, d, b') := addNewResults "diff" [Sample.rowA] Sample.store in
    ok st = true
    ∧ (∀ r, r ∈ added d ↔ r ∈ [Sample.rowA] ∧ r ∉ baseline_of "diff" Sample.store)
    ∧ (∀ r, r ∈ removed d ↔ r ∈ baseline_of "diff" Sample.store ∧ r ∉ [Sample.rowA])
    ∧ (∀ r, ¬ (r ∈ added d ∧ r ∈ removed d))
    ∧ kv b' !! "diff" = Some [Sample.rowA]
    ∧ trace b' = trace Sample.store ++ [Get "diff"; Put "diff"].
Proof.
  split; [apply not_elem_of_empty|].
  apply (addNewResults_diff_and_persist "diff" [Sample.rowA] Sample.store).
  apply not_elem_of_empty.
Defined.

Lemma tick_executes_iff_due_witness :
  schedule_ok Sample.schedule
  ∧ ∃ w' ran,
      sample_tick 20 Sample.schedule Sample.world = Some w'
      ∧ w' = sample_launch_all Sample.world ran
      ∧ ran = filter (λ e, due 20 e) Sample.schedule
      ∧ launched w' = launched Sample.world ++ ran
      ∧ (∀ qname q, (qname, q) ∈ Sample.schedule →
           ((qname, q) ∈ ran ↔ 20 mod splayed_interval q = 0))
      ∧ (∀ qname q, (qname, q) ∈ ran →
           VLOG1 ("Executing query: " +:+ query q) ∈ log w')
      ∧ (instant Sample.world + length ran ≤ instant w')%nat.
Proof.
  split; [exact sample_schedule_ok|].
  apply tick_executes_iff_due. exact sample_schedule_ok.
Defined.

(** On the tick with counter 20 the queries of period 5 and 10 run, the
    one of period 60 does not. *)
Example sample_tick_20 :
  launched <$> sample_tick 20 Sample.schedule Sample.world
  = Some [("bad", Sample.q_bad); ("diff", Sample.q_diff)].
Proof. by vm_compute. Qed.

(** C3 as stated fails: started at second 0 with a timeout of 5, the loop
    performs 6 iterations, not 5; started at second 30 it performs none. *)
Lemma start_iteration_count_counterexample :
  (sample_start 5 100%nat Sample.world).1 = (TimedOut, 6%nat)
  ∧ (sample_start 5 100%nat Sample.world).1.2 ≠ 5%nat
  ∧ (sample_start 5 100%nat
       (mkWorld 30 Sample.store [] [] [] [])).1 = (TimedOut, 0%nat).
Proof. split; [|split]; by vm_compute. Qed.

Lemma start_iteration_count_witness :
  (∀ k, schedule_ok (Sample.config k))
  ∧ 0 ≤ 30 < ULONG_MOD - 1
  ∧ (sample_start 30 40%nat Sample.world).1 = (TimedOut, 31%nat)
  ∧ (∀ k, schedule_ok (Sample.config k))
  ∧ 0 ≤ 0 < ULONG_MOD - 1
  ∧ (sample_start 0 40%nat Sample.world).1 = (StillRunning, 40%nat).
Proof.
  split; [intros k; exact sample_schedule_ok|].
  split; [by vm_compute|].
  split.
  { apply (start_iteration_count true 4242 Sample.pid_string Sample.engine
             Sample.processes Sample.clock Sample.host Sample.clock Sample.ascii
             Sample.accept Sample.accept Sample.config Sample.seconds_of_minute
             Sample.never 30 1 40%nat Sample.world);
      [intros k; exact sample_schedule_ok | by vm_compute | discriminate
      | reflexivity | vm_compute; lia]. }
  split; [intros k; exact sample_schedule_ok|].
  split; [by vm_compute|].
  apply (start_iteration_count true 4242 Sample.pid_string Sample.engine
           Sample.processes Sample.clock Sample.host Sample.clock Sample.ascii
           Sample.accept Sample.accept Sample.config Sample.seconds_of_minute
           Sample.never 0 1 40%nat Sample.world);
    [intros k; exact sample_schedule_ok | by vm_compute | reflexivity | reflexivity].
Defined.

Lemma snapshot_query_bypasses_store_witness :
  options Sample.q_snapshot !! "snapshot" = Some true
  ∧ sql_ok (sample_run "snap" Sample.q_snapshot Sample.world).1 = true
  ∧ let sql := (sample_run "snap" Sample.q_snapshot Sample.world).1 in
    let w' := (sample_launch "snap" Sample.q_snapshot Sample.world).2 in
    (∃ item, sink w' = sink Sample.world ++ [SnapshotItem item]
             ∧ snapshot_results item = rows sql
             ∧ name item = "snap"
             ∧ results item = mkDiffResults [] [])
    ∧ backend w' = backend Sample.world.
Proof.
  split; [reflexivity|]. split; [reflexivity|].
  apply snapshot_query_bypasses_store; reflexivity.
Defined.

Lemma removed_suppression_is_display_only_witness :
  options Sample.q_quiet !! "removed" = Some false
  ∧ option_set "snapshot" (options Sample.q_quiet) = false
  ∧ sql_ok (sample_run "quiet" Sample.q_quiet Sample.world).1 = true
  ∧ let sql := (sample_run "quiet" Sample.q_quiet Sample.world).1 in
    let store := addNewResults "quiet" (rows sql) (backend Sample.world) in
    ok store.1.1 = true
    ∧ (added store.1.2 ≠ [] ∨ removed store.1.2 ≠ [])
    ∧ let w' := (sample_launch "quiet" Sample.q_quiet Sample.world).2 in
      (∃ item, sink w' = sink Sample.world ++ [DifferentialItem item]
               ∧ added (results item) = added store.1.2
               ∧ removed (results item) = []
               ∧ snapshot_results item = []
               ∧ name item = "quiet")
      ∧ backend w' = store.2
      ∧ kv (backend w') !! "quiet" = Some (rows sql).
Proof.
  split; [reflexivity|]. split; [reflexivity|]. split; [reflexivity|].
  split; [reflexivity|]. split; [right; by vm_compute|].
  apply removed_suppression_is_display_only;
    [reflexivity | reflexivity | reflexivity | reflexivity | right; by vm_compute].
Defined.

Lemma empty_diff_emits_nothing_witness :
  option_set "snapshot" (options Sample.q_diff) = false
  ∧ let sql := (sample_run "same" Sample.q_diff Sample.world).1 in
    let d := (addNewResults "same" (rows sql) (backend Sample.world)).1.2 in
    added d = [] ∧ removed d = []
    ∧ sink (sample_launch "same" Sample.q_diff Sample.world).2 = sink Sample.world.
Proof.
  split; [reflexivity|]. split; [by vm_compute|]. split; [by vm_compute|].
  apply empty_diff_emits_nothing; by vm_compute.
Defined.

Lemma failed_query_is_isolated_witness :
  let w := (observe Sample.world).2 in
  let w' := (sample_launch "bad" Sample.q_bad w).2 in
  let after := [("diff", Sample.q_diff); ("snap", Sample.q_snapshot)] in
  let w2 := sample_launch_all w' (filter (λ e, due 20 e) after) in
  sql_ok (sample_run "bad" Sample.q_bad w).1 = false
  ∧ sink w' = sink w
  ∧ backend w' = backend w
  ∧ sample_tick 20 Sample.schedule w = Some w2
  ∧ sample_run_loop 0 3%nat 0%nat 20 Sample.world
    = sample_run_loop 0 2%nat 1%nat 21 (observe w2).2.
Proof.
  cbv zeta. split; [reflexivity|].
  destruct (failed_query_is_isolated true 4242 Sample.pid_string Sample.engine
              Sample.processes Sample.clock Sample.host Sample.clock Sample.ascii
              Sample.accept Sample.accept Sample.config Sample.never 0 1
              "bad" Sample.q_bad (observe Sample.world).2 eq_refl)
    as (Hs & Hb & Ht & Hl & _).
  split; [exact Hs|]. split; [exact Hb|].
  destruct (Hl 2%nat 0%nat 20 Sample.world []
              [("diff", Sample.q_diff); ("snap", Sample.q_snapshot)]
              eq_refl eq_refl sample_schedule_ok eq_refl eq_refl) as [Htick Hloop].
  split; [exact Htick|].
  rewrite Hloop. change (Sample.never _ _) with false. cbv iota.
  change (to_ulong (20 + 1)) with 21. reflexivity.
Defined.

Lemma monitor_records_iff_sampled_witness :
  total_chars (rows (Sample.engine 2 (query Sample.q_diff))) < ULONG_MOD
  ∧ (sample_run "diff" Sample.q_diff Sample.world).1 = Sample.engine 2 (query Sample.q_diff)
  ∧ ∀ p, perf (sample_run "diff" Sample.q_diff Sample.world).2
         = perf Sample.world ++ [p] →
         perf_name p = "diff"
         ∧ perf_delay p = Sample.clock 3 - Sample.clock 1
         ∧ perf_size p = total_chars (rows (Sample.engine 2 (query Sample.q_diff)))
         ∧ Sample.processes 0 "processes" "pid" EQUALS (Sample.pid_string 4242) !! 0%nat
           = Some (perf_r0 p)
         ∧ Sample.processes 4 "processes" "pid" EQUALS (Sample.pid_string 4242) !! 0%nat
           = Some (perf_r1 p).
Proof.
  split; [by vm_compute|].
  destruct (monitor_records_iff_sampled true 4242 Sample.pid_string Sample.engine
              Sample.processes Sample.clock "diff" Sample.q_diff Sample.world eq_refl)
    as (Hr & _ & Hp & _); [by vm_compute|].
  split; [exact Hr | exact Hp].
Defined.

(** The sample rows [rowA] hold 9 characters; the monitor reports them. *)
Example sample_monitor_size :
  perf_size <$> perf (sample_run "diff" Sample.q_diff Sample.world).2 = [9].
Proof. by vm_compute. Qed.

Lemma built_snapshot_never_faults_witness :
  Forall (λ e, splayed_interval e.2 < ULONG_MOD)
         (("zero", Sample.q_zero) :: Sample.schedule)
  ∧ (build_schedule (("zero", Sample.q_zero) :: Sample.schedule)).1 = Sample.schedule
  ∧ (build_schedule (("zero", Sample.q_zero) :: Sample.schedule)).2 = ["zero"]
  ∧ ∀ i w, is_Some (sample_tick i
                      (build_schedule (("zero", Sample.q_zero) :: Sample.schedule)).1 w).
Proof.
  assert (Hrange : Forall (λ e, splayed_interval e.2 < ULONG_MOD)
                          (("zero", Sample.q_zero) :: Sample.schedule))
    by (repeat constructor).
  split; [exact Hrange|]. split; [reflexivity|]. split; [reflexivity|].
  destruct (built_snapshot_never_faults true 4242 Sample.pid_string Sample.engine
              Sample.processes Sample.clock Sample.host Sample.clock Sample.ascii
              Sample.accept Sample.accept Sample.config Sample.never 0 1
              (("zero", Sample.q_zero) :: Sample.schedule) Hrange)
    as (_ & _ & Ht & _).
  exact Ht.
Defined.

(** Without the rejection the loop would fault on such a query. *)
Example zero_interval_faults :
  sample_tick 20 (("zero", Sample.q_zero) :: Sample.schedule) Sample.world = None.
Proof. reflexivity. Qed.

Lemma absent_options_behave_as_unset_witness :
  sql_ok (sample_run "diff" Sample.q_diff Sample.world).1 = true
  ∧ options Sample.q_diff !! "snapshot" = None
  ∧ options Sample.q_diff !! "removed" = None
  ∧ let sql := (sample_run "diff" Sample.q_diff Sample.world).1 in
    let store := addNewResults "diff" (rows sql) (backend Sample.world) in
    let w' := (sample_launch "diff" Sample.q_diff Sample.world).2 in
    backend w' = store.2
    ∧ ∃ item, sink w' = sink Sample.world ++ [DifferentialItem item]
              ∧ results item = store.1.2
              ∧ name item = "diff".
Proof.
  split; [reflexivity|]. split; [reflexivity|]. split; [reflexivity|].
  destruct (absent_options_behave_as_unset true 4242 Sample.pid_string Sample.engine
              Sample.processes Sample.clock Sample.host Sample.clock Sample.ascii
              Sample.accept Sample.accept "diff" Sample.q_diff Sample.world eq_refl)
    as [Hsnap Hrem].
  split; [apply Hsnap; reflexivity|].
  apply Hrem; [reflexivity | reflexivity | reflexivity | right; by vm_compute].
Defined.

(** * The browser plugin tables *)

(** ** Assignments in a loop over a key map *)

Lemma foldl_ext_all {A B} (g h : A → B → A) (l : list B) (a : A) :
  (∀ a b, g a b = h a b) → foldl g a l = foldl h a l.
Proof. intros Hgh. revert a. induction l as [|b l IH]; intros a; simpl; [done|]. by rewrite Hgh, IH. Qed.

Lemma assign_all_other (f : string → string) (keys : list (string * string)) (r0 : Row)
      (c : string) :
  c ∉ keys.*2 →
  foldl (λ r it, <[it.2 := f it.1]> r) r0 keys !! c = r0 !! c.
Proof.
  revert r0. induction keys as [|[k0 c0] keys IH]; intros r0 Hc; simpl; [done|].
  simpl in Hc. apply not_elem_of_cons in Hc as [Hne Hc].
  rewrite IH by done. by rewrite lookup_insert_ne.
Qed.

Lemma assign_all_lookup (f : string → string) (keys : list (string * string)) (r0 : Row)
      (k c : string) :
  NoDup keys.*2 → (k, c) ∈ keys →
  foldl (λ r it, <[it.2 := f it.1]> r) r0 keys !! c = Some (f k).
Proof.
  revert r0. induction keys as [|[k0 c0] keys IH]; intros r0 Hnd Hin; simpl.
  { by apply elem_of_nil in Hin. }
  simpl in Hnd. apply NoDup_cons in Hnd as [Hc0 Hnd].
  apply elem_of_cons in Hin as [[= -> ->]|Hin].
  - rewrite assign_all_other by done. apply lookup_insert_eq.
  - by apply IH.
Qed.

Lemma assign_all_dom (f : string → string) (keys : list (string * string)) (r0 : Row) :
  dom (foldl (λ r it, <[it.2 := f it.1]> r) r0 keys) = dom r0 ∪ list_to_set keys.*2.
Proof.
  revert r0. induction keys as [|[k0 c0] keys IH]; intros r0; simpl.
  - by rewrite union_empty_r_L.
  - rewrite IH, dom_insert_L.
    by rewrite (comm_L (∪) {[c0]} (dom r0)), <- (assoc_L (∪)).
Qed.

Lemma kBrowserPluginKeys_columns : NoDup kBrowserPluginKeys.*2.
Proof. apply (bool_decide_unpack _). by vm_compute. Qed.

Lemma kSafariExtensionKeys_columns : NoDup kSafariExtensionKeys.*2.
Proof. apply (bool_decide_unpack _). by vm_compute. Qed.

(** ** [genBrowserPlugin] *)

Lemma plist_bool_true (v : string) :
  v ∈ ["true"; "YES"; "Yes"] → plist_bool v = "1".
Proof. intros Hv. unfold plist_bool. by rewrite decide_True. Qed.

Lemma plist_bool_false (v : string) :
  v ∈ ["false"; "NO"; "No"] → plist_bool v = "0".
Proof.
  intros Hv. unfold plist_bool. rewrite decide_False, decide_True; [done..|].
  intros Ht. rewrite !elem_of_cons, elem_of_nil in Hv, Ht.
  destruct Hv as [->|[->|[->|[]]]]; destruct Ht as [?|[?|[?|[]]]]; discriminate.
Qed.

Lemma plist_bool_other (v : string) :
  v ∉ ["true"; "YES"; "Yes"] → v ∉ ["false"; "NO"; "No"] → plist_bool v = v.
Proof. intros Ht Hf. unfold plist_bool. by rewrite !decide_False. Qed.

Lemma plist_bool_normal (v : string) :
  plist_bool v ∉ ["true"; "YES"; "Yes"; "false"; "NO"; "No"].
Proof.
  unfold plist_bool. destruct (decide (v ∈ ["true"; "YES"; "Yes"])) as [|Ht].
  { rewrite !not_elem_of_cons. repeat split; try discriminate. apply not_elem_of_nil. }
  destruct (decide (v ∈ ["false"; "NO"; "No"])) as [|Hf].
  { rewrite !not_elem_of_cons. repeat split; try discriminate. apply not_elem_of_nil. }
  rewrite !not_elem_of_cons in Ht, Hf. rewrite !not_elem_of_cons.
  destruct Ht as (? & ? & ? & _), Hf as (? & ? & ? & _).
  repeat split; try done. apply not_elem_of_nil.
Qed.

Lemma genBrowserPlugin_key_assigns (tree : ptree) (r : Row) (it : string * string) :
  genBrowserPlugin_key tree r it = <[it.2 := plist_bool (ptree_get it.1 "" tree)]> r.
Proof.
  unfold genBrowserPlugin_key, row_at. rewrite lookup_insert_eq.
  cbn [default option_map from_option id].
  set (v := ptree_get it.1 "" tree).
  destruct (String.eqb_spec v "true") as [->|H1];
    [by rewrite plist_bool_true, insert_insert_eq by (repeat constructor)|].
  destruct (String.eqb_spec v "YES") as [->|H2];
    [by rewrite plist_bool_true, insert_insert_eq by (repeat constructor)|].
  destruct (String.eqb_spec v "Yes") as [->|H3];
    [by rewrite plist_bool_true, insert_insert_eq by (repeat constructor)|].
  cbn [orb].
  destruct (String.eqb_spec v "false") as [->|H4];
    [by rewrite plist_bool_false, insert_insert_eq by (repeat constructor)|].
  destruct (String.eqb_spec v "NO") as [->|H5];
    [by rewrite plist_bool_false, insert_insert_eq by (repeat constructor)|].
  destruct (String.eqb_spec v "No") as [->|H6];
    [by rewrite plist_bool_false, insert_insert_eq by (repeat constructor)|].
  cbn [orb]. rewrite plist_bool_other; [done|..];
    rewrite !not_elem_of_cons; repeat split; try done; apply not_elem_of_nil.
Qed.

(** The row of a plugin whose property list was parsed, before the
    default of [native] and the path are put in. *)
Lemma genBrowserPlugin_keys_fold (tree : ptree) :
  foldl (genBrowserPlugin_key tree) ∅ kBrowserPluginKeys
  = foldl (λ r it, <[it.2 := plist_bool (ptree_get it.1 "" tree)]> r) ∅
          kBrowserPluginKeys.
Proof. apply foldl_ext_all, genBrowserPlugin_key_assigns. Qed.

Lemma snoc_inv {A} (l : list A) (x y : A) : l ++ [x] = l ++ [y] → x = y.
Proof. intros H%app_inv_head. congruence. Qed.

Lemma string_length_zero (v : string) : (String.length v =? 0)%nat = true ↔ v = "".
Proof. destruct v; simpl; split; intros; try done. Qed.

(** The row [genBrowserPlugin] builds, in closed form: the converted
    values of a parsed property list, ["native"] defaulting to ["0"], and
    the path. *)
Lemma genBrowserPlugin_row (fs : Filesystem) (path : string) (results : QueryData) :
  let parsed := parsePlist fs (path +:+ "/Contents/Info.plist") in
  let r1 : Row :=
    if ok parsed.1
    then foldl (λ r it, <[it.2 := plist_bool (ptree_get it.1 "" parsed.2)]> r) ∅
               kBrowserPluginKeys
    else ∅ in
  let r2 : Row :=
    match r1 !! "native" with
    | Some (String _ _) => r1
    | _ => <["native" := "0"]> r1
    end in
  genBrowserPlugin fs path results = results ++ [<["path" := path]> r2].
Proof.
  intros parsed r1 r2. subst r2 r1. unfold genBrowserPlugin. fold parsed.
  destruct parsed as [status tree]. cbn [fst snd].
  destruct (ok status); [rewrite genBrowserPlugin_keys_fold|]; unfold row_count, row_at;
    match goal with |- context [?r !! "native"] => destruct (r !! "native") as [[|a v]|] end;
    done.
Qed.

(** X17: [genBrowserPlugin] always adds exactly one row, after the rows already
    there; the row carries the bundle path it was given, and a ["native"]
    column that is never empty. *)
Theorem genBrowserPlugin_appends_one_row (fs : Filesystem) (path : string)
        (results : QueryData) :
  ∃ r, genBrowserPlugin fs path results = results ++ [r]
       ∧ r !! "path" = Some path
       ∧ ∃ v, r !! "native" = Some v ∧ v ≠ "".
Proof.
  eexists. split; [apply genBrowserPlugin_row|]. cbv zeta.
  split; [apply lookup_insert_eq|].
  rewrite lookup_insert_ne by done.
  match goal with |- context [match ?r !! "native" with _ => _ end] =>
    destruct (r !! "native") as [[|a v]|] eqn:E
  end.
  - exists "0". by rewrite lookup_insert_eq.
  - exists (String a v). by rewrite E.
  - exists "0". by rewrite lookup_insert_eq.
Qed.

(** X18: When the bundle has no readable [Info.plist], the row holds the path
    and ["native" = "0"], and no other column. *)
Theorem genBrowserPlugin_unreadable_plist (fs : Filesystem) (path : string)
        (results : QueryData) :
  ok (parsePlist fs (path +:+ "/Contents/Info.plist")).1 = false →
  genBrowserPlugin fs path results
  = results ++ [ {[ "native" := "0"; "path" := path ]} ].
Proof.
  intros Hfail. rewrite genBrowserPlugin_row. cbv zeta. rewrite Hfail.
  rewrite lookup_empty. do 2 f_equal.
Qed.

(** X19: No column read from the property list keeps a boolean spelling:
    ["true"], ["YES"], ["Yes"], ["false"], ["NO"] and ["No"] have all become
    ["1"] or ["0"]. *)
Theorem genBrowserPlugin_booleans_converted (fs : Filesystem) (path : string)
        (results : QueryData) (r : Row) (c v : string) :
  genBrowserPlugin fs path results = results ++ [r] →
  c ∈ kBrowserPluginKeys.*2 →
  r !! c = Some v →
  v ∉ ["true"; "YES"; "Yes"; "false"; "NO"; "No"].
Proof.
  rewrite genBrowserPlugin_row. cbv zeta.
  intros Hr Hc Hv. apply snoc_inv in Hr. subst r.
  assert (c ≠ "path") as Hp.
  { intros ->. revert Hc. apply (bool_decide_unpack _). by vm_compute. }
  rewrite lookup_insert_ne in Hv by done.
  set (parsed := parsePlist fs (path +:+ "/Contents/Info.plist")) in *.
  set (r1 := if ok parsed.1 then _ else _) in *.
  assert (∀ x, r1 !! c = Some x →
               x ∉ ["true"; "YES"; "Yes"; "false"; "NO"; "No"]) as Hr1.
  { intros x Hx. subst r1. destruct (ok parsed.1); [|by rewrite lookup_empty in Hx].
    apply list_elem_of_fmap in Hc as [[k c'] [Heq Hin]]. cbn [snd] in Heq. subst c'.
    rewrite (assign_all_lookup (λ k, plist_bool (ptree_get k "" parsed.2)) _ _ k c
               kBrowserPluginKeys_columns Hin) in Hx.
    injection Hx as <-. apply plist_bool_normal. }
  assert (v = "0" ∨ r1 !! c = Some v) as [->|Hv1]; [|..|by apply Hr1].
  { destruct (r1 !! "native") as [[|a n]|];
      [|by right|];
      (destruct (decide (c = "native")) as [->|Hn];
       [rewrite lookup_insert_eq in Hv; left; congruence
       |rewrite lookup_insert_ne in Hv by done; by right]). }
  rewrite !not_elem_of_cons. repeat split; try discriminate. apply not_elem_of_nil.
Qed.

(** X20: When the property list was parsed, the row has exactly the seven
    plugin columns and the path, and each plugin column holds the converted
    value of its key, the empty string standing for a missing key, except
    that an empty ["native"] has become ["0"]. *)
Theorem genBrowserPlugin_parsed_columns (fs : Filesystem) (path : string)
        (results : QueryData) (r : Row) :
  let parsed := parsePlist fs (path +:+ "/Contents/Info.plist") in
  ok parsed.1 = true →
  genBrowserPlugin fs path results = results ++ [r] →
  dom r = list_to_set ("path" :: kBrowserPluginKeys.*2)
  ∧ ∀ k c, (k, c) ∈ kBrowserPluginKeys →
      r !! c = Some (if decide (c = "native" ∧ plist_bool (ptree_get k "" parsed.2) = "")
                     then "0" else plist_bool (ptree_get k "" parsed.2)).
Proof.
  intros parsed Hok. rewrite genBrowserPlugin_row. cbv zeta. fold parsed. rewrite Hok.
  intros Hr. apply snoc_inv in Hr. subst r.
  set (f := λ k, plist_bool (ptree_get k "" parsed.2)).
  set (r1 := foldl _ ∅ kBrowserPluginKeys).
  assert (∀ k c, (k, c) ∈ kBrowserPluginKeys → r1 !! c = Some (f k)) as Hcol.
  { intros k c Hin.
    exact (assign_all_lookup f _ ∅ k c kBrowserPluginKeys_columns Hin). }
  assert (r1 !! "native" = Some (f "LSRequiresNativeExecution")) as Hnat.
  { apply Hcol. apply (bool_decide_unpack _). by vm_compute. }
  assert (dom r1 = list_to_set kBrowserPluginKeys.*2) as Hdom.
  { transitivity (dom (∅ : Row) ∪ list_to_set kBrowserPluginKeys.*2);
      [exact (assign_all_dom f _ ∅)|].
    by rewrite dom_empty_L, union_empty_l_L. }
  rewrite Hnat. split.
  - rewrite dom_insert_L. simpl. f_equal.
    destruct (f "LSRequiresNativeExecution"); [|done].
    rewrite dom_insert_L, Hdom. apply subseteq_union_1_L.
    apply singleton_subseteq_l. apply (bool_decide_unpack _). by vm_compute.
  - intros k c Hin.
    assert (c ≠ "path") as Hp.
    { intros ->. apply (list_elem_of_fmap_2 snd) in Hin. revert Hin.
      apply (bool_decide_unpack _). by vm_compute. }
    rewrite lookup_insert_ne by done.
    pose proof (Hcol k c Hin) as Hc.
    destruct (decide (c = "native")) as [->|Hn].
    + rewrite Hnat in Hc. injection Hc as Hc. fold (f k). rewrite <- Hc.
      destruct (f "LSRequiresNativeExecution") eqn:Ef.
      * rewrite lookup_insert_eq. by rewrite decide_True.
      * rewrite Hnat. rewrite decide_False; [done|]. by intros [_ ?].
    + rewrite decide_False by (by intros [? _]).
      destruct (f "LSRequiresNativeExecution");
        [by rewrite lookup_insert_ne by done | done].
Qed.

(** ** [genBrowserPlugins] *)

Lemma genBrowserPlugin_paths (fs : Filesystem) (dir : string) (results : QueryData) :
  (λ r : Row, r !! "path") <$> genBrowserPlugin fs dir results
  = ((λ r : Row, r !! "path") <$> results) ++ [Some dir].
Proof.
  rewrite genBrowserPlugin_row. cbv zeta. rewrite fmap_app. f_equal.
  cbn [fmap list_fmap]. by rewrite lookup_insert_eq.
Qed.

Lemma genBrowserPlugin_fold_paths (fs : Filesystem) (dirs : list string)
      (results : QueryData) :
  (λ r : Row, r !! "path")
    <$> foldl (λ results dir, genBrowserPlugin fs dir results) results dirs
  = ((λ r : Row, r !! "path") <$> results) ++ (Some <$> dirs).
Proof.
  revert results. induction dirs as [|dir dirs IH]; intros results; simpl.
  - by rewrite app_nil_r.
  - rewrite IH, genBrowserPlugin_paths. by rewrite <- app_assoc.
Qed.

(** X21: The plugin table has one row for each bundle directory listed, in the
    order found: those of the system directory first, then those of each
    home directory in turn.  A directory whose listing fails contributes
    no row and does not stop the others. *)
Theorem genBrowserPlugins_one_row_per_bundle {QueryContext : Type} (fs : Filesystem)
        (context : QueryContext) :
  let found dir :=
    if ok (listDirectoriesInDirectory fs dir []).1
    then (listDirectoriesInDirectory fs dir []).2 else [] in
  (λ r : Row, r !! "path") <$> genBrowserPlugins fs context
  = Some <$> (found kBrowserPluginsPath
              ++ concat ((λ home, found (path_append fs home kBrowserPluginsPath))
                           <$> getHomeDirectories fs)).
Proof.
  intros found. unfold genBrowserPlugins.
  assert (∀ homes results bundles,
            (λ r : Row, r !! "path")
              <$> (foldl (λ '(results, bundles) home,
                     let bundles : list string := [] in
                     let '(status, bundles) :=
                       listDirectoriesInDirectory fs
                         (path_append fs home kBrowserPluginsPath) bundles in
                     (if ok status
                      then foldl (λ results dir, genBrowserPlugin fs dir results)
                                 results bundles
                      else results, bundles))
                   (results, bundles) homes).1
            = ((λ r : Row, r !! "path") <$> results)
              ++ (Some <$> concat ((λ home, found (path_append fs home kBrowserPluginsPath))
                                     <$> homes))) as Hhomes.
  { induction homes as [|home homes IH]; intros results bundles; cbn [foldl].
    - by rewrite app_nil_r.
    - assert (found (path_append fs home kBrowserPluginsPath)
              = if ok (listDirectoriesInDirectory fs
                         (path_append fs home kBrowserPluginsPath) []).1
                then (listDirectoriesInDirectory fs
                        (path_append fs home kBrowserPluginsPath) []).2
                else []) as Hfound by done.
      cbn [fmap list_fmap concat]. rewrite Hfound. clear Hfound.
      destruct (listDirectoriesInDirectory fs (path_append fs home kBrowserPluginsPath) [])
        as [status dirs].
      cbv zeta. rewrite IH. cbn [fst snd].
      destruct (ok status).
      + rewrite genBrowserPlugin_fold_paths, fmap_app. by rewrite <- app_assoc.
      + reflexivity. }
  assert (found kBrowserPluginsPath
          = if ok (listDirectoriesInDirectory fs kBrowserPluginsPath []).1
            then (listDirectoriesInDirectory fs kBrowserPluginsPath []).2
            else []) as Hfound by done.
  rewrite Hfound. clear Hfound.
  destruct (listDirectoriesInDirectory fs kBrowserPluginsPath []) as [status dirs].
  cbv zeta. rewrite Hhomes. cbn [fst snd]. rewrite fmap_app. f_equal.
  destruct (ok status); [|reflexivity].
  by rewrite genBrowserPlugin_fold_paths.
Qed.

(** ** [genSafariExtension] *)

Lemma genSafariExtension_headers_other (fs : Filesystem) (entries : list archive_entry)
      (r : Row) (c : string) :
  c ∉ kSafariExtensionKeys.*2 →
  genSafariExtension_headers fs entries r !! c = r !! c.
Proof.
  intros Hc. induction entries as [|entry rest IH]; cbn [genSafariExtension_headers]; [done|].
  destruct (archive_entry_pathname entry) as [item_path|]; [|done].
  destruct (negb (contains "Info.plist" item_path)); [done|].
  destruct (parsePlistContent fs (archive_entry_content entry)) as [status tree].
  destruct (ok status); [|done].
  exact (assign_all_other (λ k, ptree_get k "" tree) kSafariExtensionKeys r c Hc).
Qed.

(** X22: [genSafariExtension] adds no row for a file it cannot open as an
    archive, and exactly one row, carrying the path of the file, for one
    it can, whatever the archive holds. *)
Theorem genSafariExtension_row_or_nothing (fs : Filesystem) (path : string)
        (results : QueryData) :
  (archive_read_new fs path = false ∨ archive_read_open_file fs path = None →
     genSafariExtension fs path results = results)
  ∧ (∀ entries, archive_read_new fs path = true →
       archive_read_open_file fs path = Some entries →
       ∃ r, genSafariExtension fs path results = results ++ [r]
            ∧ r !! "path" = Some path).
Proof.
  unfold genSafariExtension. split.
  - intros [->| ->]; [done|]. by destruct (negb _).
  - intros entries -> ->. eexists. split; [done|].
    rewrite genSafariExtension_headers_other; [apply lookup_insert_eq|].
    apply (bool_decide_unpack _). by vm_compute.
Qed.

Lemma genSafariExtension_headers_skip (fs : Filesystem) (skipped rest : list archive_entry)
      (r : Row) :
  Forall skipped_entry skipped →
  genSafariExtension_headers fs (skipped ++ rest) r
  = genSafariExtension_headers fs rest r.
Proof.
  induction 1 as [|entry skipped Hs _ IH]; [done|].
  cbn [app genSafariExtension_headers]. unfold skipped_entry in Hs.
  destruct (archive_entry_pathname entry) as [item_path|]; [|done].
  by rewrite Hs.
Qed.

(** X23: Only the first entry whose name contains ["Info.plist"] is read: the
    entries after it are never looked at, also when that first one cannot
    be parsed, in which case the row is left as it was; and an archive
    without such an entry leaves the row as it was. *)
Theorem genSafariExtension_first_match_decides (fs : Filesystem)
        (skipped rest : list archive_entry) (entry : archive_entry)
        (item_path : string) (r : Row) :
  Forall skipped_entry skipped →
  archive_entry_pathname entry = Some item_path →
  contains "Info.plist" item_path = true →
  genSafariExtension_headers fs (skipped ++ entry :: rest) r
  = genSafariExtension_headers fs [entry] r
  ∧ (ok (parsePlistContent fs (archive_entry_content entry)).1 = false →
       genSafariExtension_headers fs (skipped ++ entry :: rest) r = r)
  ∧ genSafariExtension_headers fs skipped r = r.
Proof.
  intros Hskip Hpath Hmatch.
  rewrite genSafariExtension_headers_skip by done.
  cbn [genSafariExtension_headers]. rewrite Hpath, Hmatch. cbn [negb].
  split; [|split].
  - destruct (parsePlistContent fs _) as [status tree]. by destruct (ok status).
  - destruct (parsePlistContent fs _) as [status tree]. cbn [fst]. by intros ->.
  - rewrite <- (app_nil_r skipped). by rewrite genSafariExtension_headers_skip.
Qed.

(** X24: When the first matching entry parses, each extension column holds the
    value of its key as it stands in the property list (the empty string
    for a missing key): the boolean spellings are not converted here.  The
    other columns of the row are kept. *)
Theorem genSafariExtension_values_verbatim (fs : Filesystem)
        (skipped rest : list archive_entry) (entry : archive_entry)
        (item_path : string) (r : Row) :
  let parsed := parsePlistContent fs (archive_entry_content entry) in
  let r' := genSafariExtension_headers fs (skipped ++ entry :: rest) r in
  Forall skipped_entry skipped →
  archive_entry_pathname entry = Some item_path →
  contains "Info.plist" item_path = true →
  ok parsed.1 = true →
  (∀ k c, (k, c) ∈ kSafariExtensionKeys → r' !! c = Some (ptree_get k "" parsed.2))
  ∧ (∀ c, c ∉ kSafariExtensionKeys.*2 → r' !! c = r !! c).
Proof.
  intros parsed r' Hskip Hpath Hmatch Hok. subst r'.
  split; [|intros c Hc; by apply genSafariExtension_headers_other].
  intros k c Hin.
  rewrite genSafariExtension_headers_skip by done.
  cbn [genSafariExtension_headers]. rewrite Hpath, Hmatch. cbn [negb].
  fold parsed. destruct parsed as [status tree]. cbn [fst snd] in *. rewrite Hok.
  exact (assign_all_lookup (λ k, ptree_get k "" tree) _ r k c
           kSafariExtensionKeys_columns Hin).
Qed.

(** ** [genSafariExtensions] *)




(** * Further properties on the sample host *)

Abbreviation refused_launch :=
  (launchQuery true 4242 Sample.pid_string Sample.engine Sample.processes Sample.clock
               Sample.host Sample.clock Sample.ascii Sample.accept SampleFaults.refuse).
Abbreviation refused_status := (SampleFaults.refuse).
Abbreviation sample_loop timeout :=
  (loop true 4242 Sample.pid_string Sample.engine Sample.processes Sample.clock
        Sample.host Sample.clock Sample.ascii Sample.accept Sample.accept
        Sample.config SampleFaults.always timeout 1).

Lemma tick_sends_at_most_one_per_launch_witness :
  ∃ w', sample_tick 20 Sample.schedule Sample.world = Some w'
        ∧ sink Sample.world `prefix_of` sink w'
        ∧ launched Sample.world `prefix_of` launched w'
        ∧ (length (sink w') - length (sink Sample.world)
           ≤ length (launched w') - length (launched Sample.world))%nat.
Proof.
  destruct (sample_tick 20 Sample.schedule Sample.world) as [w'|] eqn:E.
  - exists w'. split; [reflexivity|].
    eapply tick_sends_at_most_one_per_launch. exact E.
  - vm_compute in E. discriminate E.
Defined.

Lemma tick_launches_due_in_order_witness :
  schedule_ok Sample.schedule
  ∧ ∃ w', sample_tick 20 Sample.schedule Sample.world = Some w'
          ∧ launched w' = launched Sample.world
                          ++ filter (λ e, due 20 e) Sample.schedule.
Proof.
  split; [exact sample_schedule_ok|].
  apply tick_launches_due_in_order. exact sample_schedule_ok.
Defined.

Lemma tick_zero_launches_all_witness :
  Forall (λ e, to_ulong (splayed_interval e.2) ≠ 0) Sample.schedule
  ∧ sample_tick 0 Sample.schedule Sample.world
    = Some (sample_launch_all Sample.world Sample.schedule)
  ∧ launched (sample_launch_all Sample.world Sample.schedule)
    = launched Sample.world ++ Sample.schedule
  ∧ Exists (λ e, to_ulong (splayed_interval e.2) = 0)
           (Sample.schedule ++ [("zero", Sample.q_zero)])
  ∧ sample_tick 0 (Sample.schedule ++ [("zero", Sample.q_zero)]) Sample.world = None.
Proof.
  assert (Forall (λ e, to_ulong (splayed_interval e.2) ≠ 0) Sample.schedule) as Hnz
    by (repeat constructor; by vm_compute).
  assert (Exists (λ e, to_ulong (splayed_interval e.2) = 0)
                 (Sample.schedule ++ [("zero", Sample.q_zero)])) as Hz
    by (apply Exists_app; right; by constructor).
  split; [exact Hnz|].
  split; [by apply tick_zero_launches_all|].
  split; [by apply tick_zero_launches_all|].
  split; [exact Hz|]. by apply tick_zero_launches_all.
Defined.

Lemma launchQuery_sends_at_most_one_witness :
  sql_ok (sample_run "bad" Sample.q_bad Sample.world).1 = false
  ∧ sink (sample_launch "bad" Sample.q_bad Sample.world).2 = sink Sample.world.
Proof.
  split; [reflexivity|].
  apply (launchQuery_sends_at_most_one true 4242 Sample.pid_string Sample.engine
           Sample.processes Sample.clock Sample.host Sample.clock Sample.ascii
           Sample.accept Sample.accept "bad" Sample.q_bad Sample.world).
  reflexivity.
Defined.

Lemma logger_refusal_keeps_new_baseline_witness :
  let sql := (sample_run "diff" Sample.q_diff Sample.world).1 in
  let n0 := instant (sample_run "diff" Sample.q_diff Sample.world).2 in
  let store := addNewResults "diff" (rows sql) (backend Sample.world) in
  let item := launch_item Sample.host Sample.clock Sample.ascii
                          "diff" Sample.q_diff sql store n0 in
  let w' := (refused_launch "diff" Sample.q_diff Sample.world).2 in
  sql_ok sql = true
  ∧ option_set "snapshot" (options Sample.q_diff) = false
  ∧ ok store.1.1 = true
  ∧ (added store.1.2 ≠ [] ∨ removed store.1.2 ≠ [])
  ∧ ok (refused_status (3 + n0)%nat item) = false
  ∧ backend w' = store.2
  ∧ sink w' = sink Sample.world ++ [DifferentialItem item]
  ∧ last (log w')
    = Some (LOG_ERROR ("Error logging the results of query (" +:+ query Sample.q_diff
                       +:+ "): " +:+ what (refused_status (3 + n0)%nat item))).
Proof.
  cbv zeta.
  split; [reflexivity|]. split; [reflexivity|]. split; [reflexivity|].
  split; [right; by vm_compute|]. split; [reflexivity|].
  apply logger_refusal_keeps_new_baseline;
    [reflexivity | reflexivity | reflexivity | right; by vm_compute | reflexivity].
Defined.

Lemma store_refusal_sends_nothing_witness :
  let sql := (sample_run "diff" Sample.q_diff SampleFaults.locked_world).1 in
  let store := addNewResults "diff" (rows sql) (backend SampleFaults.locked_world) in
  let w' := (sample_launch "diff" Sample.q_diff SampleFaults.locked_world).2 in
  sql_ok sql = true
  ∧ option_set "snapshot" (options Sample.q_diff) = false
  ∧ ok store.1.1 = false
  ∧ sink w' = sink SampleFaults.locked_world
  ∧ backend w' = store.2
  ∧ log w' = log SampleFaults.locked_world
             ++ [VLOG1 ("Executing query: " +:+ query Sample.q_diff);
                 LOG_ERROR ("Error adding new results to database: "
                            +:+ what store.1.1)].
Proof.
  cbv zeta.
  split; [reflexivity|]. split; [reflexivity|]. split; [by vm_compute|].
  apply store_refusal_sends_nothing; [reflexivity | reflexivity | by vm_compute].
Defined.

Lemma launchQuery_reads_text_and_two_options_witness :
  let w1 := (sample_launch "diff" Sample.q_diff Sample.world).2 in
  let w2 := (sample_launch "diff" SampleFaults.q_other Sample.world).2 in
  query Sample.q_diff = query SampleFaults.q_other
  ∧ option_set "snapshot" (options Sample.q_diff)
    = option_set "snapshot" (options SampleFaults.q_other)
  ∧ option_cleared "removed" (options Sample.q_diff)
    = option_cleared "removed" (options SampleFaults.q_other)
  ∧ instant w1 = instant w2 ∧ backend w1 = backend w2 ∧ sink w1 = sink w2
  ∧ perf w1 = perf w2 ∧ log w1 = log w2.
Proof.
  cbv zeta.
  split; [reflexivity|]. split; [reflexivity|]. split; [reflexivity|].
  apply launchQuery_reads_text_and_two_options; reflexivity.
Defined.

Lemma monitor_off_records_nothing_witness :
  perf (start false 4242 Sample.pid_string Sample.engine Sample.processes Sample.clock
              Sample.host Sample.clock Sample.ascii Sample.accept Sample.accept
              Sample.config Sample.seconds_of_minute Sample.never 30 1 40%nat
              Sample.world).2
  = perf Sample.world.
Proof.
  apply (monitor_off_records_nothing false 4242 Sample.pid_string Sample.engine
           Sample.processes Sample.clock Sample.host Sample.clock Sample.ascii
           Sample.accept Sample.accept Sample.config Sample.seconds_of_minute
           Sample.never 30 1 40%nat Sample.world "diff" Sample.q_diff).
  reflexivity.
Defined.

Lemma cancelled_loop_runs_one_tick_witness :
  (0 =? 0) || (20 <=? 0) = true
  ∧ schedule_ok (Sample.config (instant Sample.world))
  ∧ (∀ k ms, SampleFaults.always k ms = true)
  ∧ let r := sample_loop 0 3%nat 0%nat 20 Sample.world in
    r.1 = (Interrupted, 1%nat)
    ∧ launched r.2
      = launched Sample.world
        ++ filter (λ e, due 20 e) (Sample.config (instant Sample.world)).
Proof.
  split; [reflexivity|]. split; [exact sample_schedule_ok|]. split; [reflexivity|].
  apply cancelled_loop_runs_one_tick;
    [reflexivity | exact sample_schedule_ok | reflexivity].
Defined.

Lemma largest_timeout_never_times_out_witness :
  ULONG_MOD - 1 = ULONG_MOD - 1
  ∧ (sample_start (ULONG_MOD - 1) 3%nat Sample.world).1.1 ≠ TimedOut.
Proof.
  split; [reflexivity|]. apply largest_timeout_never_times_out. reflexivity.
Defined.

Lemma late_start_does_nothing_witness :
  let w := mkWorld 30 Sample.store [] [] [] [] in
  5 ≠ 0
  ∧ 5 < to_ulong (Sample.seconds_of_minute (Sample.clock (instant w)))
  ∧ sample_start 5 4%nat w
    = (TimedOut, 0%nat,
       mkWorld 31 (backend w) (sink w) (perf w) (log w) (launched w)).
Proof.
  cbv zeta. split; [discriminate|]. split; [by vm_compute|].
  apply late_start_does_nothing; [discriminate | by vm_compute].
Defined.

Lemma monitor_is_transparent_witness :
  let launch monitoring :=
    (launchQuery monitoring 4242 Sample.pid_string Sample.engine Sample.processes
                 Sample.clock Sample.host SampleFaults.fixed_time Sample.ascii
                 Sample.accept Sample.accept "diff" Sample.q_diff Sample.world).2 in
  sink (launch true) = sink (launch false)
  ∧ backend (launch true) = backend (launch false)
  ∧ log (launch true) = log (launch false).
Proof.
  apply monitor_is_transparent; reflexivity.
Defined.

Lemma output_size_order_and_sum_witness :
  [Sample.rowB; Sample.rowA] ≡ₚ [Sample.rowA; Sample.rowB]
  ∧ output_size [Sample.rowB; Sample.rowA] = output_size [Sample.rowA; Sample.rowB].
Proof.
  split; [apply Permutation_swap|].
  apply (proj1 (output_size_order_and_sum [Sample.rowA; Sample.rowB] [])
               [Sample.rowB; Sample.rowA]).
  apply Permutation_swap.
Defined.

(** * The browser plugin tables on the sample file system *)

(** Equalities between closed rows are decided by evaluation. *)
Ltac by_evaluation := apply (bool_decide_unpack _); vm_compute; exact I.

(** The plugin with a property list: the first child of a key is read,
    ["YES"] has become ["1"], the missing keys are empty. *)
Example sample_flash_row :
  genBrowserPlugin SampleDarwin.fs SampleDarwin.flash [] = [SampleDarwin.flash_row].
Proof. by_evaluation. Qed.

Example sample_plugins_table :
  (λ r : Row, r !! "path") <$> genBrowserPlugins SampleDarwin.fs tt
  = [Some SampleDarwin.flash; Some SampleDarwin.broken].
Proof. by_evaluation. Qed.


Lemma genBrowserPlugin_unreadable_plist_witness :
  ok (parsePlist SampleDarwin.fs (SampleDarwin.broken +:+ "/Contents/Info.plist")).1 = false
  ∧ genBrowserPlugin SampleDarwin.fs SampleDarwin.broken []
    = [] ++ [ {[ "native" := "0"; "path" := SampleDarwin.broken ]} ].
Proof.
  split; [reflexivity|]. apply genBrowserPlugin_unreadable_plist. reflexivity.
Defined.

Lemma genBrowserPlugin_booleans_converted_witness :
  genBrowserPlugin SampleDarwin.fs SampleDarwin.flash [] = [] ++ [SampleDarwin.flash_row]
  ∧ "native" ∈ kBrowserPluginKeys.*2
  ∧ SampleDarwin.flash_row !! "native" = Some "1"
  ∧ "1" ∉ ["true"; "YES"; "Yes"; "false"; "NO"; "No"].
Proof.
  assert ("native" ∈ kBrowserPluginKeys.*2) as Hc by by_evaluation.
  assert (genBrowserPlugin SampleDarwin.fs SampleDarwin.flash []
          = [] ++ [SampleDarwin.flash_row]) as Hrow by by_evaluation.
  split; [exact Hrow|]. split; [exact Hc|]. split; [reflexivity|].
  exact (genBrowserPlugin_booleans_converted SampleDarwin.fs SampleDarwin.flash []
           SampleDarwin.flash_row "native" "1" Hrow Hc eq_refl).
Defined.

Lemma genBrowserPlugin_parsed_columns_witness :
  let parsed := parsePlist SampleDarwin.fs (SampleDarwin.flash +:+ "/Contents/Info.plist") in
  let r := SampleDarwin.flash_row in
  ok parsed.1 = true
  ∧ genBrowserPlugin SampleDarwin.fs SampleDarwin.flash [] = [] ++ [r]
  ∧ dom r = list_to_set ("path" :: kBrowserPluginKeys.*2)
  ∧ ∀ k c, (k, c) ∈ kBrowserPluginKeys →
      r !! c = Some (if decide (c = "native" ∧ plist_bool (ptree_get k "" parsed.2) = "")
                     then "0" else plist_bool (ptree_get k "" parsed.2)).
Proof.
  cbv zeta.
  assert (genBrowserPlugin SampleDarwin.fs SampleDarwin.flash []
          = [] ++ [SampleDarwin.flash_row]) as Hrow by by_evaluation.
  split; [reflexivity|]. split; [exact Hrow|].
  exact (genBrowserPlugin_parsed_columns SampleDarwin.fs SampleDarwin.flash []
           SampleDarwin.flash_row eq_refl Hrow).
Defined.

Lemma genSafariExtension_row_or_nothing_witness :
  archive_read_new SampleDarwin.fs SampleDarwin.adblock = true
  ∧ archive_read_open_file SampleDarwin.fs SampleDarwin.adblock
    = Some SampleDarwin.adblock_entries
  ∧ (∃ r, genSafariExtension SampleDarwin.fs SampleDarwin.adblock []
          = [] ++ [r] ∧ r !! "path" = Some SampleDarwin.adblock)
  ∧ archive_read_open_file SampleDarwin.fs SampleDarwin.flash = None
  ∧ genSafariExtension SampleDarwin.fs SampleDarwin.flash [] = [].
Proof.
  split; [reflexivity|]. split; [reflexivity|].
  split.
  - apply (proj2 (genSafariExtension_row_or_nothing SampleDarwin.fs SampleDarwin.adblock [])
                 SampleDarwin.adblock_entries); reflexivity.
  - split; [reflexivity|].
    apply (proj1 (genSafariExtension_row_or_nothing SampleDarwin.fs SampleDarwin.flash [])).
    right. reflexivity.
Defined.

Lemma sample_skipped :
  Forall skipped_entry
         [mkArchiveEntry None "";
          mkArchiveEntry (Some "AdBlock.safariextension/icon.png") "png"].
Proof. repeat constructor. Defined.

Lemma genSafariExtension_first_match_decides_witness :
  let skipped := [mkArchiveEntry None "";
                  mkArchiveEntry (Some "AdBlock.safariextension/icon.png") "png"] in
  let entry := mkArchiveEntry (Some "AdBlock.safariextension/Info.plist") "unreadable" in
  let rest := [mkArchiveEntry (Some "AdBlock.safariextension/old/Info.plist") "first"] in
  let r : Row := {[ "path" := SampleDarwin.adblock ]} in
  Forall skipped_entry skipped
  ∧ archive_entry_pathname entry = Some "AdBlock.safariextension/Info.plist"
  ∧ contains "Info.plist" "AdBlock.safariextension/Info.plist" = true
  ∧ ok (parsePlistContent SampleDarwin.fs (archive_entry_content entry)).1 = false
  ∧ genSafariExtension_headers SampleDarwin.fs (skipped ++ entry :: rest) r = r.
Proof.
  cbv zeta. split; [exact sample_skipped|]. split; [reflexivity|].
  split; [reflexivity|]. split; [reflexivity|].
  destruct (genSafariExtension_first_match_decides SampleDarwin.fs
              [mkArchiveEntry None "";
               mkArchiveEntry (Some "AdBlock.safariextension/icon.png") "png"]
              [mkArchiveEntry (Some "AdBlock.safariextension/old/Info.plist") "first"]
              (mkArchiveEntry (Some "AdBlock.safariextension/Info.plist") "unreadable")
              "AdBlock.safariextension/Info.plist"
              {[ "path" := SampleDarwin.adblock ]}
              sample_skipped eq_refl eq_refl) as (_ & Hbad & _).
  apply Hbad. reflexivity.
Defined.

Lemma genSafariExtension_values_verbatim_witness :
  let skipped := [mkArchiveEntry None "";
                  mkArchiveEntry (Some "AdBlock.safariextension/icon.png") "png"] in
  let entry := mkArchiveEntry (Some "AdBlock.safariextension/Info.plist") "first" in
  let rest := [mkArchiveEntry (Some "AdBlock.safariextension/old/Info.plist") "second"] in
  let r : Row := {[ "path" := SampleDarwin.adblock ]} in
  let parsed := parsePlistContent SampleDarwin.fs (archive_entry_content entry) in
  let r' := genSafariExtension_headers SampleDarwin.fs (skipped ++ entry :: rest) r in
  Forall skipped_entry skipped
  ∧ archive_entry_pathname entry = Some "AdBlock.safariextension/Info.plist"
  ∧ contains "Info.plist" "AdBlock.safariextension/Info.plist" = true
  ∧ ok parsed.1 = true
  ∧ r' !! "update_url" = Some "true"
  ∧ r' !! "path" = Some SampleDarwin.adblock.
Proof.
  cbv zeta. split; [exact sample_skipped|]. split; [reflexivity|].
  split; [reflexivity|]. split; [reflexivity|].
  destruct (genSafariExtension_values_verbatim SampleDarwin.fs
              [mkArchiveEntry None "";
               mkArchiveEntry (Some "AdBlock.safariextension/icon.png") "png"]
              [mkArchiveEntry (Some "AdBlock.safariextension/old/Info.plist") "second"]
              (mkArchiveEntry (Some "AdBlock.safariextension/Info.plist") "first")
              "AdBlock.safariextension/Info.plist"
              {[ "path" := SampleDarwin.adblock ]}
              sample_skipped eq_refl eq_refl eq_refl) as [Hcol Hother].
  split.
  - apply (Hcol "Update Manifest URL" "update_url").
    apply (bool_decide_unpack _). by vm_compute.
  - rewrite Hother; [reflexivity|]. apply (bool_decide_unpack _). by vm_compute.
Defined.

